(** * Municode client and fetcher: a shallow embedding

    The development follows [src/modules/municode]: [client.py]
    ([MunicodeClient]), [models.py] ([MunicodeDoc]) and
    [fetch_chapters.py] ([MunicodeFetcher]).  Python values are modelled
    as the interpreter has them: a [str] is a sequence of Unicode code
    points, a [dict] is a finite map, a [set] is a finite set, and an
    exception is an explicit outcome of a computation. *)

From Stdlib Require Import NArith Ascii String.
From stdpp Require Import gmap list.

Local Open Scope N_scope.

(** ** Python strings *)

(** A code point. *)
Definition char : Type := N.

(** A Python [str]. *)
Definition str : Type := list char.

Definition chr (a : ascii) : char := N_of_ascii a.

(** Reading of an ASCII literal as a Python [str]. *)
Definition py (s : string) : str := chr <$> list_ascii_of_string s.

(** The characters that the module writes as escapes, and the space. *)
Definition LF : char := 10.
Definition DQUOTE : char := 34.
Definition BACKSLASH : char := 92.
Definition SP : char := 32.

(** ** Built-ins of [str] used by the module *)

Module Py.

(** [str.isspace] on one code point, which is also the class [\s] of
    [re] on [str] patterns: the ASCII controls 9-13 and 28-31, the
    space, NEL, NBSP and the Unicode space separators. *)
Definition isspace (c : char) : bool :=
  ((9 <=? c) && (c <=? 13)) || ((28 <=? c) && (c <=? 32))
  || (c =? 133) || (c =? 160) || (c =? 5760)
  || ((8192 <=? c) && (c <=? 8202))
  || (c =? 8232) || (c =? 8233) || (c =? 8239) || (c =? 8287)
  || (c =? 12288).

(** Truthiness of a [str]: false exactly on the empty string. *)
Definition truthy (s : str) : bool :=
  match s with [] => false | _ :: _ => true end.

Fixpoint lstrip (s : str) : str :=
  match s with
  | [] => []
  | c :: s' => if isspace c then lstrip s' else s
  end.

Fixpoint rstrip (s : str) : str :=
  match s with
  | [] => []
  | c :: s' =>
      match rstrip s' with
      | [] => if isspace c then [] else [c]
      | r => c :: r
      end
  end.

(** [s.strip()] *)
Definition strip (s : str) : str := rstrip (lstrip s).

(** [s.split(sep)] for a one-character separator: never empty. *)
Fixpoint split (sep : char) (s : str) : list str :=
  match s with
  | [] => [[]]
  | c :: s' =>
      if c =? sep then [] :: split sep s'
      else match split sep s' with
           | l :: ls => (c :: l) :: ls
           | [] => [[c]]
           end
  end.

(** [sep.join(parts)] *)
Fixpoint join (sep : str) (parts : list str) : str :=
  match parts with
  | [] => []
  | [x] => x
  | x :: xs => x ++ sep ++ join sep xs
  end.

(** [s.startswith(p)] *)
Fixpoint startswith (p s : str) : bool :=
  match p, s with
  | [], _ => true
  | _ :: _, [] => false
  | a :: p', b :: s' => (a =? b) && startswith p' s'
  end.

(** Left-to-right replacement of non-overlapping occurrences, shared by
    [str.replace] and [re.sub].  [m s] is the length of the occurrence
    that starts at the head of [s], if there is one; [skip] counts the
    characters of the current occurrence still to be dropped.  Every
    pattern of the module consumes at least one character, so the
    empty occurrence does not arise; it is treated as no occurrence. *)
Fixpoint scan (m : str -> option nat) (repl : str) (skip : nat) (s : str)
  : str :=
  match s with
  | [] => []
  | c :: s' =>
      match skip with
      | S k => scan m repl k s'
      | O =>
          match m s with
          | Some (S k) => repl ++ scan m repl k s'
          | _ => c :: scan m repl 0 s'
          end
      end
  end.

Definition occurs (old s : str) : option nat :=
  if startswith old s then Some (length old) else None.

(** [s.replace(old, new)], [old] not empty. *)
Definition replace (old new s : str) : str := scan (occurs old) new 0 s.

End Py.

(** ** The fragment of [re] used by the module *)

Module Re.

(** A pattern is a sequence of character classes, each taken once or
    under one of the greedy quantifiers [*], [+], [?].  Groups do not
    change what is matched and no replacement of the module refers to
    one, so they are not represented. *)
Inductive item : Type :=
| One (p : char -> bool)
| Star (p : char -> bool)
| Plus (p : char -> bool)
| Opt (p : char -> bool).

Definition regex : Type := list item.

Definition only (a : ascii) : char -> bool := fun c => c =? chr a.
Definition onlyc (a : char) : char -> bool := fun c => c =? a.
(** [[^a]] *)
Definition except (a : ascii) : char -> bool := fun c => negb (c =? chr a).
(** [[A-Z]] *)
Definition upper : char -> bool := fun c => (65 <=? c) && (c <=? 90).

(** A literal run of ASCII characters. *)
Definition lit (s : string) : regex := (fun a => One (only a)) <$> list_ascii_of_string s.

(** Greedy [p*] followed by the continuation [k]: the longest run
    first, giving back one character at a time. *)
Fixpoint star_len (p : char -> bool) (k : str -> option nat) (s : str)
  : option nat :=
  match s with
  | c :: s' =>
      if p c then
        match star_len p k s' with
        | Some n => Some (S n)
        | None => k s
        end
      else k s
  | [] => k s
  end.

(** Length of the match of [r] at the head of [s], in the order a
    backtracking matcher finds it. *)
Fixpoint match_len (r : regex) (s : str) : option nat :=
  match r with
  | [] => Some O
  | One p :: r' =>
      match s with
      | c :: s' => if p c then S <$> match_len r' s' else None
      | [] => None
      end
  | Star p :: r' => star_len p (match_len r') s
  | Plus p :: r' =>
      match s with
      | c :: s' => if p c then S <$> star_len p (match_len r') s' else None
      | [] => None
      end
  | Opt p :: r' =>
      match s with
      | c :: s' =>
          if p c then
            match match_len r' s' with
            | Some n => Some (S n)
            | None => match_len r' s
            end
          else match_len r' s
      | [] => match_len r' s
      end
  end.

(** Patterns that open with a class taken once or with [+]. *)
Definition consuming (r : regex) : bool :=
  match r with
  | One _ :: _ | Plus _ :: _ => true
  | _ => false
  end.

(** [re.sub(r, repl, s)] for a replacement without group references. *)
Definition sub (r : regex) (repl : str) (s : str) : str :=
  Py.scan (match_len r) repl 0 s.

End Re.

(** ** Values of a decoded JSON document *)

(** What [json.loads] returns: [None], [bool], [int], [str], [list] and
    [dict] with [str] keys. *)
#[local] Unset Elimination Schemes.
Inductive pyval : Type :=
| PNone
| PBool (b : bool)
| PInt (z : Z)
| PStr (s : str)
| PList (l : list pyval)
| PDict (d : gmap str pyval).
#[local] Set Elimination Schemes.

(** A JSON object. *)
Abbreviation pydict := (gmap str pyval).

(** [d.get(key, default)] *)
Definition get (d : pydict) (key : str) (default : pyval) : pyval :=
  match d !! key with
  | Some v => v
  | None => default
  end.

(** Truth value of an object, as [not x] tests it. *)
Definition truth (v : pyval) : bool :=
  match v with
  | PNone => false
  | PBool b => b
  | PInt z => negb (z =? 0)%Z
  | PStr s => Py.truthy s
  | PList l => match l with [] => false | _ => true end
  | PDict d => negb (size d =? 0)%nat
  end.

(** Instances of [Exception], the class that the handlers of the module
    catch. *)
Inductive exn : Type :=
| AttributeError
| TypeError
| Error (msg : str).

Inductive outcome (A : Type) : Type :=
| Return (a : A)
| Raise (e : exn).
Arguments Return {A} a.
Arguments Raise {A} e.

(** ** [models.py] *)

Module Models.

(** [MunicodeDoc].  A dataclass does not check its annotations, so a
    field holds whichever value the constructor was called with. *)
Record MunicodeDoc : Type := {
  DocType : pyval;
  IsAmended : pyval;
  IsUpdated : pyval;
  CompareStatus : pyval;
  DocOrderId : pyval;
  AmendedBy : pyval;
  Notes : pyval;
  Drafts : pyval;
  ChunkGroupStartingNodeId : pyval;
  NodeDepth : pyval;
  TitleHtml : pyval;
  Id : pyval;
  Title : pyval;
  Content : pyval;
  SortDate : pyval;
  Footnotes : pyval
}.

(** [MunicodeResponse] *)
Record MunicodeResponse : Type := { Docs : list MunicodeDoc }.

(** [MunicodeRequestParams] *)
Record MunicodeRequestParams : Type := {
  job_id : Z;
  node_id : str;
  product_id : Z
}.

End Models.

(** ** [client.py] *)

Module Client.
Import Py Re Models.

(** [r'<div[^>]*>'] *)
Definition re_div_open : regex := lit "<div" ++ [Star (except ">"); One (only ">")].
(** [r'<br\s*/?>'] *)
Definition re_br : regex := lit "<br" ++ [Star isspace; Opt (only "/"); One (only ">")].
(** [r'<[^>]*>'] *)
Definition re_tag : regex := [One (only "<"); Star (except ">"); One (only ">")].
(** Lines 184 and 185 give two spellings of the pattern.  Inside a
    regular expression an escaped quote and a bare quote both stand for
    the quote character, so both spellings denote one pattern: a
    backslash, a quote, one letter of [[A-Z]], a backslash, a quote. *)
Definition re_quoted_letter : regex :=
  [One (onlyc BACKSLASH); One (onlyc DQUOTE); One upper;
   One (onlyc BACKSLASH); One (onlyc DQUOTE)].
(** [r'\s+'] *)
Definition re_spaces : regex := [Plus isspace].
(** [r'\n\s*\n+'] *)
Definition re_blank_lines : regex := [One (onlyc LF); Star isspace; Plus (onlyc LF)].

(** The replacement text of lines 184 and 185 is written as an
    ordinary literal, not a raw one: Python reads backslash-1 in it as
    the octal escape of the code point 1.  The replacement is therefore
    a quote, U+0001, a quote, and refers to no group. *)
Definition repl_quoted_letter : str := [DQUOTE; 1; DQUOTE].

(** Lines 174-189: tags, entities and escapes. *)
Definition strip_markup (content : str) : str :=
  let content := sub re_div_open [LF] content in
  let content := replace (py "</div>") [] content in
  let content := sub re_br [LF] content in
  let content := sub re_tag [] content in
  let content := replace (py "&nbsp;") [SP] content in
  let content := sub re_quoted_letter repl_quoted_letter content in
  let content := sub re_quoted_letter repl_quoted_letter content in
  let content := replace [BACKSLASH; chr "n"] [LF] content in
  let content := replace [BACKSLASH; DQUOTE] [DQUOTE] content in
  content.

(** Lines 192-199: spaces, newlines, lines. *)
Definition normalize_space (content : str) : str :=
  let content := sub re_spaces [SP] content in
  let content := sub re_blank_lines [LF; LF] content in
  let lines := strip <$> split LF content in
  let content := join [LF] (filter (fun line => truthy line = true) lines) in
  strip content.

(** [MunicodeClient.get_clean_content] *)
Definition get_clean_content (content : option str) : str :=
  match content with
  | None => []
  | Some c =>
      if negb (truthy c) then []
      else normalize_space (strip_markup c)
  end.

(** [MunicodeClient.build_node_id] *)
Definition build_node_id (title chapter : str)
    (subchapter article : option str) : str :=
  let node_id := py "TIT" ++ title ++ py "_CH" ++ chapter in
  let node_id :=
    match subchapter with
    | Some s => if truthy s then node_id ++ py "_" ++ s else node_id
    | None => node_id
    end in
  let node_id :=
    match article with
    | Some a => if truthy a then node_id ++ py "_" ++ a else node_id
    | None => node_id
    end in
  node_id.

(** Lines 71-88 of [get_chapter_content]: one element of [data['Docs']]
    becomes one [MunicodeDoc]. *)
Definition doc_of_data (doc_data : pydict) : MunicodeDoc := {|
  DocType := get doc_data (py "DocType") (PInt 0);
  IsAmended := get doc_data (py "IsAmended") (PBool false);
  IsUpdated := get doc_data (py "IsUpdated") (PBool false);
  CompareStatus := get doc_data (py "CompareStatus") (PInt 0);
  DocOrderId := get doc_data (py "DocOrderId") (PInt 0);
  AmendedBy := get doc_data (py "AmendedBy") (PList []);
  Notes := get doc_data (py "Notes") (PList []);
  Drafts := get doc_data (py "Drafts") (PList []);
  ChunkGroupStartingNodeId := get doc_data (py "ChunkGroupStartingNodeId") (PStr []);
  NodeDepth := get doc_data (py "NodeDepth") (PInt 0);
  TitleHtml := get doc_data (py "TitleHtml") (PStr []);
  Id := get doc_data (py "Id") (PStr []);
  Title := get doc_data (py "Title") (PStr []);
  Content := get doc_data (py "Content") (PStr []);
  SortDate := get doc_data (py "SortDate") PNone;
  Footnotes := get doc_data (py "Footnotes") PNone
|}.

(** [v == n] for an [int] [n]: [bool] is a subclass of [int], so [True]
    equals 1 and [False] equals 0; no other value of the model equals an
    integer. *)
Definition eq_int (v : pyval) (n : Z) : bool :=
  match v with
  | PInt x => (x =? n)%Z
  | PBool b => ((if b then 1 else 0) =? n)%Z
  | _ => false
  end.

(** [v == s] for a [str] [s]: only an equal [str] is equal. *)
Definition eq_str (v : pyval) (s : str) : bool :=
  match v with
  | PStr x => bool_decide (x = s)
  | _ => false
  end.

(** [MunicodeClient.get_sections_by_depth] *)
Definition get_sections_by_depth (docs : list MunicodeDoc) (depth : Z)
  : list MunicodeDoc :=
  filter (fun doc => eq_int (NodeDepth doc) depth = true) docs.

(** [MunicodeClient.get_section_by_id]: [next] of the generator, with
    [None] for an exhausted one. *)
Definition get_section_by_id (docs : list MunicodeDoc) (id : str)
  : option MunicodeDoc :=
  List.find (fun doc => eq_str (Id doc) id) docs.

(** [needle in hay] *)
Fixpoint contains (needle hay : str) : bool :=
  startswith needle hay ||
  match hay with
  | [] => false
  | _ :: hay' => contains needle hay'
  end.

Section Search.

(** [str.lower], the case table of Unicode. *)
Variable lower : str -> str.

(** [search_term in (field or '').lower()]: a falsy field counts as the
    empty string, and only a [str] has the method. *)
Definition field_matches (search_term : str) (field : pyval) : outcome bool :=
  match (if truth field then field else PStr []) with
  | PStr s => Return (contains search_term (lower s))
  | _ => Raise AttributeError
  end.

(** The condition of line 128; [or] looks at the content only when the
    title does not match. *)
Definition doc_matches (search_term : str) (doc : MunicodeDoc) : outcome bool :=
  match field_matches search_term (Title doc) with
  | Raise e => Raise e
  | Return true => Return true
  | Return false => field_matches search_term (Content doc)
  end.

(** The comprehension of lines 126-129. *)
Fixpoint matching (search_term : str) (docs : list MunicodeDoc)
  : outcome (list MunicodeDoc) :=
  match docs with
  | [] => Return []
  | doc :: rest =>
      match doc_matches search_term doc with
      | Raise e => Raise e
      | Return b =>
          match matching search_term rest with
          | Raise e => Raise e
          | Return found => Return (if b then doc :: found else found)
          end
      end
  end.

(** [MunicodeClient.search_sections] *)
Definition search_sections (docs : list MunicodeDoc) (query : str)
  : outcome (list MunicodeDoc) :=
  let search_term := lower query in
  matching search_term docs.

End Search.

End Client.

(** ** [config.py] *)

Module Config.

(** The entries of [AUSTIN_CONFIG]. *)
Definition AUSTIN_job_id : Z := 464171.
Definition AUSTIN_product_id : Z := 15303.
Definition AUSTIN_title : str := py "25LADE".
Definition AUSTIN_base_url : str := py "https://api.municode.com".
Definition AUSTIN_root_node_id : str := py "TIT25LADE".

End Config.

(** ** [fetch_chapters.py] *)

Module Fetcher.
Import Py Re Models Client Config.

(** What a run leaves behind, in the order it happens: the records of
    [self.logger] and the pauses of [asyncio.sleep]. *)
Inductive event : Type :=
| Starting
| Discovering
| Found (n : nat)
| ErrorDiscovering (e : exn)
| Fetching (base_chapter : str)
| Stored (chapter : str)
| ErrorFetching (chapter : str) (e : exn)
| FailedToFetch (node_id : pyval) (e : exn)
| Processed (n : nat)
| ErrorBulk (e : exn)
| Completed
| Sleep (seconds : nat).

Section Run.

(** State of everything outside the process: the remote service and the
    file system. *)
Variable World : Type.

(** [self.client.get_available_chapters(job_id, product_id, root_node_id)] *)
Variable get_available_chapters :
  Z -> Z -> str -> World -> outcome (list pydict) * World.
(** [self.client.get_chapter_content(params)] *)
Variable get_chapter_content :
  MunicodeRequestParams -> World -> outcome MunicodeResponse * World.
(** [self._save_json(data, filepath)], the path taken relative to
    [self.base_output_dir]. *)
Variable _save_json : pyval -> str -> World -> outcome unit * World.
(** [str.isalnum] on one code point, the table behind the class [\w]. *)
Variable isalnum : char -> bool.

Record env : Type := { trace : list event; world : World }.

(** Computations that read and write [env] and may raise. *)
Definition M (A : Type) : Type := env -> outcome A * env.

Definition ret {A} (a : A) : M A := fun s => (Return a, s).
Definition raise {A} (e : exn) : M A := fun s => (Raise e, s).
Definition bind {A B} (m : M A) (k : A -> M B) : M B :=
  fun s =>
    match m s with
    | (Return a, s') => k a s'
    | (Raise e, s') => (Raise e, s')
    end.
(** [try: m  except Exception as e: h e] *)
Definition try_except {A} (m : M A) (h : exn -> M A) : M A :=
  fun s =>
    match m s with
    | (Return a, s') => (Return a, s')
    | (Raise e, s') => h e s'
    end.
(** The environment once [ev] has happened. *)
Definition logged (s : env) (ev : event) : env :=
  {| trace := trace s ++ [ev]; world := world s |}.
Definition emit (ev : event) : M unit := fun s => (Return tt, logged s ev).
Definition perform {A} (f : World -> outcome A * World) : M A :=
  fun s => let (o, w) := f (world s) in (o, {| trace := trace s; world := w |}).
Definition lift {A} (o : outcome A) : M A := fun s => (o, s).

Notation "x <- m ;; k" := (bind m (fun x => k))
  (at level 100, m at next level, right associativity, only parsing).
Notation "m ;;; k" := (bind m (fun _ => k))
  (at level 100, right associativity, only parsing).

(** [MunicodeClient.get_clean_content(doc.Content)] on whatever value the
    field holds: a falsy value of any type gives [''], any other value
    that is not a [str] makes [re.sub] raise. *)
Definition clean_value (content : pyval) : outcome pyval :=
  if negb (truth content) then Return (PStr [])
  else match content with
       | PStr s => Return (PStr (get_clean_content (Some s)))
       | _ => Raise TypeError
       end.

(** Lines 122-133. *)
Fixpoint sections_of (docs : list MunicodeDoc) : outcome (list pyval) :=
  match docs with
  | [] => Return []
  | doc :: rest =>
      match clean_value (Content doc) with
      | Raise e => Raise e
      | Return content =>
          let section_data := PDict (list_to_map [
            (py "id", Id doc);
            (py "title", Title doc);
            (py "depth", NodeDepth doc);
            (py "content", content);
            (py "is_amended", IsAmended doc);
            (py "is_updated", IsUpdated doc);
            (py "doc_order_id", DocOrderId doc)]) in
          match sections_of rest with
          | Raise e => Raise e
          | Return sections_data => Return (section_data :: sections_data)
          end
      end
  end.

(** [\w] *)
Definition isword (c : char) : bool := isalnum c || (c =? chr "_").
(** [r'[^\w\-]'] *)
Definition re_unsafe : regex := [One (fun c => negb (isword c || (c =? chr "-")))].

(** [MunicodeFetcher.fetch_and_store_chapter]; [title], [subchapter] and
    [article] are not used by the body. *)
Definition fetch_and_store_chapter
    (job_id : Z) (title chapter : str) (product_id : Z) : M unit :=
  try_except
    (let node_id := chapter in
     let params := {| job_id := job_id; node_id := node_id; product_id := product_id |} in
     response <- perform (get_chapter_content params) ;;
     sections_data <- lift (sections_of (Docs response)) ;;
     let output_data := PDict (list_to_map [
       (py "chapter", PStr chapter);
       (py "node_id", PStr node_id);
       (py "sections", PList sections_data)]) in
     let safe_filename := sub re_unsafe (py "_") chapter ++ py ".json" in
     perform (_save_json output_data safe_filename) ;;;
     emit (Stored chapter))
    (fun e => emit (ErrorFetching chapter e) ;;; raise e).

(** [node_id.split('_')]: only a [str] has the method. *)
Definition split_value (v : pyval) : outcome (list str) :=
  match v with
  | PStr s => Return (split (chr "_") s)
  | _ => Raise AttributeError
  end.

(** Lines 184-209, the body of the [try] inside the loop.  The result is
    the set [processed_chapters] as the iteration leaves it. *)
Definition loop_body (chapter : pydict) (processed_chapters : gset str)
  : M (gset str) :=
  let node_id := get chapter (py "Id") (PStr []) in
  if negb (truth node_id) then ret processed_chapters
  else
    parts <- lift (split_value node_id) ;;
    let base_chapter := join (py "_") (take 2 parts) in
    if bool_decide (base_chapter ∈ processed_chapters) then ret processed_chapters
    else
      parts <- lift (split_value node_id) ;;
      if (2 <? length parts)%nat then ret processed_chapters
      else
        emit (Fetching base_chapter) ;;;
        fetch_and_store_chapter AUSTIN_job_id AUSTIN_title base_chapter
          AUSTIN_product_id ;;;
        let processed_chapters := {[base_chapter]} ∪ processed_chapters in
        emit (Sleep 1) ;;;
        ret processed_chapters.

(** Lines 183-212: one turn of the loop, with its handler.  [chapter]
    is a JSON object, as the service lists its nodes, so that line 184
    binds [node_id] before anything can raise and the handler finds it
    bound.  An element of the listing that is no object is outside this
    definition. *)
Definition iteration (chapter : pydict) (processed_chapters : gset str)
  : M (gset str) :=
  try_except (loop_body chapter processed_chapters)
    (fun e =>
       emit (FailedToFetch (get chapter (py "Id") (PStr [])) e) ;;;
       ret processed_chapters).

(** Lines 182-212: [for chapter in chapters]. *)
Fixpoint fetch_loop (chapters : list pydict) (processed_chapters : gset str)
  : M (gset str) :=
  match chapters with
  | [] => ret processed_chapters
  | chapter :: rest =>
      processed_chapters <- iteration chapter processed_chapters ;;
      fetch_loop rest processed_chapters
  end.

(** Lines 179-214: the set, the loop and the final count. *)
Definition fetch_chapters (chapters : list pydict) : M (gset str) :=
  let processed_chapters : gset str := ∅ in
  processed_chapters <- fetch_loop chapters processed_chapters ;;
  emit (Processed (size processed_chapters)) ;;;
  ret processed_chapters.

(** [MunicodeFetcher.discover_chapters] *)
Definition discover_chapters : M (list pydict) :=
  emit Discovering ;;;
  try_except
    (chapters <- perform (get_available_chapters AUSTIN_job_id
                            AUSTIN_product_id AUSTIN_root_node_id) ;;
     emit (Found (length chapters)) ;;;
     ret chapters)
    (fun e => emit (ErrorDiscovering e) ;;; raise e).

(** [MunicodeFetcher.fetch_all_austin_chapters] *)
Definition fetch_all_austin_chapters : M unit :=
  emit Starting ;;;
  try_except
    (chapters <- discover_chapters ;;
     perform (_save_json
                (PDict {[ py "chapters" := PList (PDict <$> chapters) ]})
                (py "chapter_structure.json")) ;;;
     fetch_chapters chapters ;;;
     ret tt)
    (fun e => emit (ErrorBulk e) ;;; raise e) ;;;
  emit Completed.

(** The chapter keys handed to [fetch_and_store_chapter], in order. *)
Definition attempts (t : list event) : list str :=
  omap (fun ev => match ev with Fetching k => Some k | _ => None end) t.

(** The chapters reported as stored, in order. *)
Definition stored (t : list event) : list str :=
  omap (fun ev => match ev with Stored k => Some k | _ => None end) t.

End Run.

Arguments trace {World} _.
Arguments world {World} _.
Arguments logged {World} _ _.

End Fetcher.

(** ** Auxiliary notions for the statements *)

Import Py Re Models Client Config Fetcher.

(** Length of the longest prefix of [s] inside the class [p]. *)
Fixpoint span (p : char -> bool) (s : str) : nat :=
  match s with
  | c :: s' => if p c then S (span p s') else O
  | [] => O
  end.

(** One space for every maximal run of whitespace; [in_ws] tells that
    the run in progress has already been paid for. *)
Fixpoint collapse (in_ws : bool) (s : str) : str :=
  match s with
  | [] => []
  | c :: s' =>
      if isspace c then
        if in_ws then collapse true s' else SP :: collapse true s'
      else c :: collapse false s'
  end.

(** Every whitespace character of [s] is the space, and no two of them
    are neighbours; [after_ws] tells that a whitespace character
    precedes [s]. *)
Fixpoint tidy (after_ws : bool) (s : str) : Prop :=
  match s with
  | [] => True
  | c :: s' =>
      if isspace c then c = SP /\ after_ws = false /\ tidy true s'
      else tidy false s'
  end.

(** No whitespace at either end. *)
Definition trimmed (s : str) : Prop :=
  (forall c, head s = Some c -> isspace c = false) /\
  (forall c, last s = Some c -> isspace c = false).

(** The words Value and here around a quoted P, with [k] backslashes
    before each of the two quotes. *)
Definition escaped_P (k : nat) : str :=
  py "Value " ++ replicate k BACKSLASH ++ [DQUOTE] ++ py "P"
    ++ replicate k BACKSLASH ++ [DQUOTE] ++ py " here".

(** The fields of [MunicodeDoc] by the kind of their annotation in
    [models.py]. *)
Inductive kind : Type := KInt | KBool | KSeq | KStr | KOpt.

(** The default that the specification gives to each kind: integers 0,
    booleans false, sequences empty, strings empty, optionals absent. *)
Definition default_of (k : kind) : pyval :=
  match k with
  | KInt => PInt 0
  | KBool => PBool false
  | KSeq => PList []
  | KStr => PStr []
  | KOpt => PNone
  end.

(** Key of the response element, kind and projection of each field, in
    the order of [models.py]. *)
Definition fields : list (str * kind * (MunicodeDoc -> pyval)) :=
  [ (py "DocType", KInt, DocType);
    (py "IsAmended", KBool, IsAmended);
    (py "IsUpdated", KBool, IsUpdated);
    (py "CompareStatus", KInt, CompareStatus);
    (py "DocOrderId", KInt, DocOrderId);
    (py "AmendedBy", KSeq, AmendedBy);
    (py "Notes", KSeq, Notes);
    (py "Drafts", KSeq, Drafts);
    (py "ChunkGroupStartingNodeId", KStr, ChunkGroupStartingNodeId);
    (py "NodeDepth", KInt, NodeDepth);
    (py "TitleHtml", KStr, TitleHtml);
    (py "Id", KStr, Id);
    (py "Title", KStr, Title);
    (py "Content", KStr, Content);
    (py "SortDate", KOpt, SortDate);
    (py "Footnotes", KOpt, Footnotes) ].


(** A node of the listing that carries nothing but its id. *)
Definition node_of_id (id : str) : pydict := {[ py "Id" := PStr id ]}.

(** [chapter] has the string [id] for its id. *)
Definition has_id (chapter : pydict) (id : str) : Prop :=
  get chapter (py "Id") (PStr []) = PStr id.

(** [chapter] is a node that the loop may fetch: its id is the string
    [id], not empty, of at most two segments. *)
Definition chapter_root (chapter : pydict) (id : str) : Prop :=
  has_id chapter id /\ id <> [] /\
  (length (split (chr "_") id) <= 2)%nat.

(** Section 4.2 of the specification, in its words: go through the ids
    in input order; skip an empty id; the key is the first two segments;
    skip an id of more than two segments; skip a key already emitted;
    emit the key otherwise. *)
Fixpoint dedupe (emitted ids : list str) : list str :=
  match ids with
  | [] => []
  | id :: rest =>
      let segments := split (chr "_") id in
      let key := join (py "_") (take 2 segments) in
      if negb (truthy id) then dedupe emitted rest
      else if (2 <? length segments)%nat then dedupe emitted rest
      else if bool_decide (key ∈ emitted) then dedupe emitted rest
      else key :: dedupe (key :: emitted) rest
  end.

(** The listing of the specification's example. *)
Definition example_ids : list str :=
  [py "TIT1_CH1"; py "TIT1_CH1_SUBA"; py "TIT1_CH1_SUBA_ART1";
   py "TIT1_CH2"; py "TIT1_CH1"].

(** A field that [search_sections] can read: a falsy value or a [str]. *)
Definition text_or_falsy (v : pyval) : Prop :=
  truth v = false \/ exists s, v = PStr s.

(** Lower case of the ASCII letters, every other code point kept. *)
Definition lower_ascii (s : str) : str :=
  (fun c => if (65 <=? c) && (c <=? 90) then c + 32 else c) <$> s.

(** The pauses of a run, in order, each with its seconds. *)
Definition pauses (t : list event) : list nat :=
  omap (fun ev => match ev with Sleep n => Some n | _ => None end) t.

(** The text of a field, if it is one. *)
Definition text_of (v : pyval) : option str :=
  match v with
  | PStr s => Some s
  | _ => None
  end.

(** Line 143 without the extension: the chapter key made into a file
    name. *)
Definition safe_stem (isalnum : char -> bool) (chapter : str) : str :=
  sub (re_unsafe isalnum) (py "_") chapter.

(** The characters that line 143 keeps: [\w] and the hyphen. *)
Definition kept (isalnum : char -> bool) (c : char) : bool :=
  isword isalnum c || (c =? chr "-").

(** The class of an item of a pattern. *)
Definition class_of (i : item) : char -> bool :=
  match i with One p | Star p | Plus p | Opt p => p end.

(** [c] is in one of the classes of [r]. *)
Definition in_classes (r : regex) (c : char) : bool :=
  existsb (fun i => class_of i c) r.

(** The least number of characters that a match of [r] takes. *)
Fixpoint min_len (r : regex) : nat :=
  match r with
  | [] => O
  | One _ :: r' | Plus _ :: r' => S (min_len r')
  | _ :: r' => min_len r'
  end.

(** An angle bracket. *)
Definition angle (c : char) : bool := (c =? chr "<") || (c =? chr ">").

(** The angle brackets of a text, in order. *)
Definition angles (s : str) : str :=
  filter (B := list char) (fun c => angle c = true) s.

(** A closing angle bracket occurs in [s]. *)
Definition has_gt (s : str) : bool := existsb (fun c => c =? chr ">") s.

(** A tag occurs in [s]: an opening angle bracket with a closing one
    somewhere after it, which is what [r'<[^>]*>'] finds. *)
Fixpoint tagged (s : str) : bool :=
  match s with
  | [] => false
  | c :: s' => ((c =? chr "<") && has_gt s') || tagged s'
  end.

(** [await call(...)] where [call] is an ordinary method, as those of
    [MunicodeClient] are: the call is made, and when it returns, its
    result, a list or an instance of a dataclass, is no awaitable, so
    the [await] raises [TypeError]. *)
Definition await_result {A World : Type} (call : World -> outcome A * World)
  : World -> outcome A * World :=
  fun w =>
    match call w with
    | (Return _, w') => (Raise TypeError, w')
    | (Raise e, w') => (Raise e, w')
    end.

(** What comes out of such an [await] in place of the outcome [o] of
    the call. *)
Definition await_error {A : Type} (o : outcome A) : exn :=
  match o with
  | Return _ => TypeError
  | Raise e => e
  end.

(** The id of a node as a text.  The loop reads the id with [get] and
    tests its truth value before anything else, so a null id, or any
    other falsy value, is passed over as the empty string is; a value
    that is neither falsy nor a string fails at [split], which ends the
    turn before anything is fetched.  Either way the node counts as one
    without id. *)
Definition id_text (chapter : pydict) : str :=
  match get chapter (py "Id") (PStr []) with
  | PStr id => id
  | _ => []
  end.

(** The record of a fetch that failed: [fetch_and_store_chapter] logs
    every exception that it raises, and nothing else writes this
    record. *)
Definition fetch_failed (ev : event) : bool :=
  match ev with
  | ErrorFetching _ _ => true
  | _ => false
  end.

(** No fetch has failed in the run whose log is [t]. *)
Definition failure_free (t : list event) : bool :=
  forallb (fun ev => negb (fetch_failed ev)) t.

(** Stand-ins for the remote service and the file system, to run the
    loop on: a service that answers every request with an empty document
    list, one that fails the first request it gets and answers the later
    ones, and a file system that takes every write.  The state of the
    world is the number of requests made so far. *)
Module Stub.

Definition content_ok (params : MunicodeRequestParams) (w : nat)
  : outcome MunicodeResponse * nat :=
  (Return {| Docs := [] |}, S w).

Definition content_first_fails (params : MunicodeRequestParams) (w : nat)
  : outcome MunicodeResponse * nat :=
  match w with
  | O => (Raise (Error (py "Municode API error: 503")), S w)
  | S _ => (Return {| Docs := [] |}, S w)
  end.

Definition save_ok (data : pyval) (filepath : str) (w : nat)
  : outcome unit * nat :=
  (Return tt, w).

(** A service whose only document carries a number as its content. *)
Definition content_number (params : MunicodeRequestParams) (w : nat)
  : outcome MunicodeResponse * nat :=
  (Return {| Docs := [doc_of_data {[ py "Content" := PInt 7 ]}] |}, S w).

(** A service that lists the given nodes. *)
Definition listing_ok (chapters : list pydict) (job_id product_id : Z)
    (root_node_id : str) (w : nat) : outcome (list pydict) * nat :=
  (Return chapters, S w).

(** ASCII letters and digits. *)
Definition alnum (c : char) : bool :=
  ((48 <=? c) && (c <=? 57)) || ((65 <=? c) && (c <=? 90))
  || ((97 <=? c) && (c <=? 122)).

Definition start : env nat := {| trace := []; world := O |}.

End Stub.

(** ** The scanner and the matcher *)

Section Scan.
Variables (m : str -> option nat) (repl : str).

(** Where no occurrence starts, nothing is replaced. *)
Lemma scan_none (s : str) :
  (forall c t, c ∈ s -> m (c :: t) = None) -> scan m repl 0 s = s.
Proof.
  induction s as [|c s IH]; intros H; simpl; [done|].
  rewrite (H c s) by left. f_equal. apply IH.
  intros c' t Hc'. apply H. by right.
Qed.

End Scan.

Lemma star_len_span (p : char -> bool) (k : str -> option nat) (s : str) :
  (forall t, k t = Some O) -> star_len p k s = Some (span p s).
Proof.
  intros Hk. induction s as [|c s IH]; simpl; [apply Hk|].
  destruct (p c); [by rewrite IH | apply Hk].
Qed.

(** A consuming pattern has no empty match, and every pattern of the
    module is consuming: the scanner never meets the empty occurrence. *)
Lemma match_len_consuming (r : regex) (s : str) :
  consuming r = true -> match_len r s <> Some O.
Proof.
  destruct r as [|[p|p|p|p] r]; try done; intros _; cbn [match_len];
    destruct s as [|c s]; try done; destruct (p c); try done.
  - by destruct (match_len r s).
  - by destruct (star_len p (match_len r) s).
Qed.

Lemma patterns_consuming :
  Forall (fun r => consuming r = true)
    [re_div_open; re_br; re_tag; re_quoted_letter; re_spaces; re_blank_lines].
Proof. repeat constructor. Qed.

(** A pattern that opens with a class the text avoids changes nothing. *)
Lemma sub_avoid (p : char -> bool) (r : regex) (repl s : str) :
  (forall c, c ∈ s -> p c = false) -> sub (One p :: r) repl s = s.
Proof.
  intros H. apply scan_none. intros c t Hc. simpl. by rewrite (H c Hc).
Qed.

Lemma replace_avoid (a : char) (old new s : str) :
  a ∉ s -> replace (a :: old) new s = s.
Proof.
  intros H. apply scan_none. intros c t Hc. unfold occurs. simpl.
  destruct (a =? c) eqn:E; [|done].
  apply N.eqb_eq in E. subst. contradiction.
Qed.

Lemma match_spaces (c : char) (s : str) :
  match_len re_spaces (c :: s) =
  if isspace c then Some (S (span isspace s)) else None.
Proof.
  unfold re_spaces. cbn [match_len]. destruct (isspace c); [|done].
  by rewrite star_len_span.
Qed.

Lemma sub_spaces_collapse (s : str) :
  sub re_spaces [SP] s = collapse false s /\
  scan (match_len re_spaces) [SP] (span isspace s) s = collapse true s.
Proof.
  unfold sub. induction s as [|c s [IH1 IH2]]; [done|].
  cbn [span collapse scan]. rewrite match_spaces.
  destruct (isspace c) eqn:E.
  - cbn [app]. by rewrite IH2.
  - by rewrite IH1.
Qed.

(** ** Whitespace: [collapse], [tidy], [strip] *)

Lemma isspace_SP : isspace SP = true.
Proof. reflexivity. Qed.

Lemma isspace_LF : isspace LF = true.
Proof. reflexivity. Qed.

Lemma collapse_tidy (b : bool) (s : str) : tidy b (collapse b s).
Proof.
  revert b. induction s as [|c s IH]; intros b; [done|].
  cbn [collapse]. destruct (isspace c) eqn:E.
  - destruct b; [apply IH|].
    cbn [tidy]. rewrite isspace_SP. auto.
  - cbn [tidy]. rewrite E. apply IH.
Qed.

Lemma tidy_weaken (b : bool) (s : str) : tidy b s -> tidy false s.
Proof.
  destruct s as [|c s]; [done|]. cbn [tidy].
  destruct (isspace c); [|done]. intros (? & ? & ?). auto.
Qed.

Lemma tidy_collapse (b : bool) (s : str) : tidy b s -> collapse b s = s.
Proof.
  revert b. induction s as [|c s IH]; intros b; [done|].
  cbn [tidy collapse]. destruct (isspace c).
  - intros (-> & -> & H). f_equal. by apply IH.
  - intros H. f_equal. by apply IH.
Qed.

Lemma tidy_no_LF (b : bool) (s : str) : tidy b s -> LF ∉ s.
Proof.
  revert b. induction s as [|c s IH]; intros b; [intros _ H; inversion H|].
  cbn [tidy]. rewrite not_elem_of_cons. destruct (isspace c) eqn:E.
  - intros (-> & _ & H). split; [done | by eapply IH].
  - intros H. split; [|by eapply IH].
    intros <-. by rewrite isspace_LF in E.
Qed.

Lemma tidy_no_adjacent (b : bool) (l1 l2 : str) (c1 c2 : char) :
  tidy b (l1 ++ c1 :: c2 :: l2) ->
  isspace c1 = true -> isspace c2 = true -> False.
Proof.
  intros H H1 H2. revert b H.
  induction l1 as [|c l1 IH]; intros b; cbn [app tidy].
  - rewrite H1, H2. intros (_ & _ & _ & ? & _). done.
  - destruct (isspace c); [intros (_ & _ & H)|intros H]; by apply IH in H.
Qed.

Lemma lstrip_tidy (b : bool) (s : str) : tidy b s -> tidy false (lstrip s).
Proof.
  revert b. induction s as [|c s IH]; intros b; [done|].
  cbn [tidy lstrip]. destruct (isspace c) eqn:E.
  - intros (_ & _ & H). by apply IH in H.
  - intros H. cbn [tidy]. by rewrite E.
Qed.

Lemma rstrip_tidy (b : bool) (s : str) : tidy b s -> tidy b (rstrip s).
Proof.
  revert b. induction s as [|c s IH]; intros b; [done|].
  cbn [tidy rstrip]. destruct (rstrip s) as [|d r] eqn:R.
  - destruct (isspace c) eqn:E; [done|]. intros _. cbn [tidy]. by rewrite E.
  - cbn [tidy]. destruct (isspace c).
    + intros (? & ? & H). repeat split; [done..|]. by apply IH in H.
    + intros H. by apply IH in H.
Qed.

Lemma strip_tidy (b : bool) (s : str) : tidy b s -> tidy false (strip s).
Proof. intros H. unfold strip. by eapply rstrip_tidy, lstrip_tidy. Qed.

Lemma lstrip_head (s : str) (c : char) :
  head (lstrip s) = Some c -> isspace c = false.
Proof.
  induction s as [|d s IH]; [done|]. cbn [lstrip].
  destruct (isspace d) eqn:E; [done|]. by intros [= <-].
Qed.

Lemma rstrip_head (s : str) (c : char) :
  head (rstrip s) = Some c -> head s = Some c.
Proof.
  destruct s as [|d s]; [done|]. cbn [rstrip].
  destruct (rstrip s); [destruct (isspace d)|]; done.
Qed.

Lemma rstrip_last (s : str) (c : char) :
  last (rstrip s) = Some c -> isspace c = false.
Proof.
  induction s as [|d s IH]; [done|]. cbn [rstrip].
  destruct (rstrip s) as [|e r].
  - destruct (isspace d) eqn:E; [done|]. by intros [= <-].
  - exact IH.
Qed.

Lemma strip_trimmed (s : str) : trimmed (strip s).
Proof.
  split; intros c H.
  - apply rstrip_head in H. by apply lstrip_head in H.
  - by apply rstrip_last in H.
Qed.

Lemma rstrip_id (s : str) :
  (forall c, last s = Some c -> isspace c = false) -> rstrip s = s.
Proof.
  induction s as [|d s IH]; [done|]. intros H. cbn [rstrip].
  destruct s as [|e s].
  - cbn. by rewrite (H d).
  - rewrite IH by (intros c Hc; by apply H). done.
Qed.

Lemma trimmed_strip (s : str) : trimmed s -> strip s = s.
Proof.
  intros [Hh Hl]. unfold strip.
  assert (lstrip s = s) as ->; [|by apply rstrip_id].
  destruct s as [|c s]; [done|]. cbn. by rewrite (Hh c).
Qed.

Lemma split_no_sep (sep : char) (s : str) : sep ∉ s -> split sep s = [s].
Proof.
  induction s as [|c s IH]; [done|]. intros H. cbn [split].
  destruct (c =? sep) eqn:E.
  - apply N.eqb_eq in E. subst. exfalso. apply H. left.
  - rewrite IH; [done|]. intros Hin. apply H. by right.
Qed.

(** Lines 192-199 amount to trimming the collapsed text: once every run
    of whitespace is one space there is no newline left to act on. *)
Lemma normalize_space_eq (s : str) :
  normalize_space s = strip (collapse false s).
Proof.
  unfold normalize_space.
  destruct (sub_spaces_collapse s) as [-> _].
  pose proof (collapse_tidy false s) as Ht.
  set (t := collapse false s) in *.
  pose proof (tidy_no_LF _ _ Ht) as Hlf.
  unfold re_blank_lines. rewrite (sub_avoid (onlyc LF)).
  2:{ intros c Hc. unfold onlyc. apply N.eqb_neq. by intros ->. }
  rewrite split_no_sep by done. cbn [fmap list_fmap].
  rewrite filter_cons, filter_nil.
  destruct (strip t) as [|c u] eqn:Hs.
  - by rewrite decide_False.
  - rewrite decide_True by done. cbn [join].
    rewrite <- Hs. apply trimmed_strip, strip_trimmed.
Qed.

(** ** [get_clean_content] *)

(** Text without an opening angle bracket, an ampersand or a backslash
    passes lines 174-189 unchanged. *)
Lemma strip_markup_id (s : str) :
  chr "<" ∉ s -> chr "&" ∉ s -> BACKSLASH ∉ s -> strip_markup s = s.
Proof.
  intros Hlt Hamp Hbs. unfold strip_markup.
  assert (forall r repl, sub (One (only "<") :: r) repl s = s) as Hsub_lt.
  { intros. apply sub_avoid. intros c Hc. unfold only.
    apply N.eqb_neq. by intros ->. }
  assert (forall r repl, sub (One (onlyc BACKSLASH) :: r) repl s = s) as Hsub_bs.
  { intros. apply sub_avoid. intros c Hc. unfold onlyc.
    apply N.eqb_neq. by intros ->. }
  change re_div_open
    with (One (only "<") :: lit "div" ++ [Star (except ">"); One (only ">")]).
  rewrite Hsub_lt.
  change (py "</div>") with (chr "<" :: py "/div>").
  rewrite (replace_avoid (chr "<")) by done.
  change re_br
    with (One (only "<")
            :: lit "br" ++ [Star isspace; Opt (only "/"); One (only ">")]).
  rewrite Hsub_lt. unfold re_tag. rewrite Hsub_lt.
  change (py "&nbsp;") with (chr "&" :: py "nbsp;").
  rewrite (replace_avoid (chr "&")) by done.
  unfold re_quoted_letter. rewrite !Hsub_bs.
  rewrite (replace_avoid BACKSLASH [chr "n"]) by done.
  by rewrite (replace_avoid BACKSLASH [DQUOTE]).
Qed.

Lemma blank_avoids (s : str) (c : char) :
  forallb isspace s = true -> isspace c = false -> c ∉ s.
Proof.
  intros H Hc Hin. rewrite forallb_forall in H.
  apply list_elem_of_In, H in Hin. congruence.
Qed.

Lemma collapse_blank (b : bool) (s : str) :
  forallb isspace s = true -> lstrip (collapse b s) = [].
Proof.
  revert b. induction s as [|c s IH]; intros b; [done|].
  cbn [forallb collapse]. intros [Hc Hs]%andb_prop. rewrite Hc.
  destruct b; [by apply IH|]. cbn [lstrip]. rewrite isspace_SP. by apply IH.
Qed.

(** The shape of every cleaned text. *)
Lemma clean_tidy_trimmed (content : option str) :
  tidy false (get_clean_content content) /\
  trimmed (get_clean_content content).
Proof.
  unfold get_clean_content.
  destruct content as [c|]; [|by repeat split].
  destruct (truthy c); [|by repeat split]. cbn [negb].
  rewrite normalize_space_eq. split.
  - eapply strip_tidy, collapse_tidy.
  - apply strip_trimmed.
Qed.

(** C5.  [get_clean_content] is a total function whose value on [None],
    on the empty string and on every string made of whitespace only is
    the empty string. *)
Theorem clean_blank_input :
  get_clean_content None = [] /\
  get_clean_content (Some []) = [] /\
  forall s : str, forallb isspace s = true -> get_clean_content (Some s) = [].
Proof.
  split; [done|]. split; [done|]. intros s Hs. unfold get_clean_content.
  destruct (truthy s); [|done]. cbn [negb].
  rewrite strip_markup_id by (by apply blank_avoids).
  rewrite normalize_space_eq. unfold strip. by rewrite collapse_blank.
Qed.

Lemma clean_blank_input_witness :
  forallb isspace (py "  " ++ [LF; 9; 160; 8195]) = true /\
  get_clean_content (Some (py "  " ++ [LF; 9; 160; 8195])) = [].
Proof.
  split; [reflexivity|].
  apply (proj2 (proj2 clean_blank_input)). reflexivity.
Defined.

(** C10.  Whatever the input, the text returned by [get_clean_content]
    holds no newline, no two neighbouring whitespace characters (so no
    run of two or more spaces), and neither starts nor ends with
    whitespace. *)
Theorem clean_output_shape (content : option str) :
  (LF ∉ get_clean_content content) /\
  (forall (l1 l2 : str) (c1 c2 : char),
      get_clean_content content = l1 ++ c1 :: c2 :: l2 ->
      isspace c1 = true -> isspace c2 = true -> False) /\
  (forall c, head (get_clean_content content) = Some c -> isspace c = false) /\
  (forall c, last (get_clean_content content) = Some c -> isspace c = false).
Proof.
  destruct (clean_tidy_trimmed content) as [Ht [Hh Hl]].
  repeat split; [by eapply tidy_no_LF| |done..].
  intros l1 l2 c1 c2 E. rewrite E in Ht. by eapply tidy_no_adjacent.
Qed.

Lemma clean_output_shape_witness :
  head (get_clean_content (Some (py "<p> a  b </p>"))) = Some (chr "a") /\
  isspace (chr "a") = false.
Proof.
  split; [reflexivity|].
  apply (proj1 (proj2 (proj2
           (clean_output_shape (Some (py "<p> a  b </p>")))))).
  reflexivity.
Defined.

(** C2.  On a [div] followed by a line break the cleaner joins the two
    pieces with a space: the newline that lines 174 and 176 put in is
    taken by the pattern of line 192, whose class holds the newline. *)
Theorem clean_div_br_example :
  get_clean_content (Some (py "<div>A</div><br>B")) = py "A B" /\
  get_clean_content (Some (py "<div>A</div><br>B")) <> py "A" ++ [LF] ++ py "B".
Proof. split; [reflexivity | discriminate]. Qed.

(** C3.  The letter of an escaped quoted token is not kept.  With one
    backslash before each quote (16 characters) the token becomes a
    quote, U+0001, a quote; with two (18 characters) or three (20
    characters) neither pattern matches and line 189 only takes one
    backslash away.  None of the three results is the text with the
    plain quoted letter, [escaped_P 0]. *)
Theorem clean_escaped_letter_example :
  (length (escaped_P 1) = 16 /\ length (escaped_P 2) = 18
   /\ length (escaped_P 3) = 20)%nat /\
  get_clean_content (Some (escaped_P 1))
    = py "Value " ++ [DQUOTE; 1; DQUOTE] ++ py " here" /\
  get_clean_content (Some (escaped_P 2)) = escaped_P 1 /\
  get_clean_content (Some (escaped_P 3)) = escaped_P 2 /\
  get_clean_content (Some (escaped_P 1)) <> escaped_P 0 /\
  get_clean_content (Some (escaped_P 2)) <> escaped_P 0 /\
  get_clean_content (Some (escaped_P 3)) <> escaped_P 0.
Proof. repeat split; (reflexivity || discriminate). Qed.

(** C4, as stated, fails: two backslashes and a quote are cleaned to one
    backslash and a quote, which is cleaned to a quote. *)
Lemma clean_not_idempotent :
  get_clean_content (Some [BACKSLASH; BACKSLASH; DQUOTE]) = [BACKSLASH; DQUOTE] /\
  get_clean_content (Some [BACKSLASH; DQUOTE]) = [DQUOTE] /\
  get_clean_content (Some (get_clean_content (Some [BACKSLASH; BACKSLASH; DQUOTE])))
    <> get_clean_content (Some [BACKSLASH; BACKSLASH; DQUOTE]).
Proof. repeat split; (reflexivity || discriminate). Qed.

(** ** [get_chapter_content]: building a document *)

(** C8.  The record is built from every response element, and a field
    whose key the element lacks holds the default of its kind: 0 for an
    integer, false for a boolean, the empty sequence, the empty string,
    [None] for an optional field.  A key that is present gives the field
    its value. *)
Theorem doc_of_data_defaults (doc_data : pydict)
    (key : str) (k : kind) (field : MunicodeDoc -> pyval) :
  (key, k, field) ∈ fields ->
  (doc_data !! key = None -> field (doc_of_data doc_data) = default_of k) /\
  (forall v, doc_data !! key = Some v -> field (doc_of_data doc_data) = v).
Proof.
  intros H. unfold fields in H.
  repeat (apply elem_of_cons in H as [[= -> -> ->] | H];
          [split; [intros E | intros v E];
           cbv [doc_of_data get DocType IsAmended IsUpdated CompareStatus
                DocOrderId AmendedBy Notes Drafts ChunkGroupStartingNodeId
                NodeDepth TitleHtml Id Title Content SortDate Footnotes];
           by rewrite E|]).
  by apply elem_of_nil in H.
Qed.

Lemma doc_of_data_defaults_witness :
  SortDate (doc_of_data {[ py "Id" := PStr (py "TIT1_CH1") ]}) = PNone /\
  Id (doc_of_data {[ py "Id" := PStr (py "TIT1_CH1") ]}) = PStr (py "TIT1_CH1").
Proof.
  split.
  - refine (proj1 (doc_of_data_defaults _ (py "SortDate") KOpt SortDate _) _).
    + unfold fields. do 14 apply list_elem_of_further. apply list_elem_of_here.
    + reflexivity.
  - refine (proj2 (doc_of_data_defaults _ (py "Id") KStr Id _) _ _).
    + unfold fields. do 11 apply list_elem_of_further. apply list_elem_of_here.
    + reflexivity.
Defined.

(** ** [build_node_id] *)

(** C9, as stated, fails for a part that is supplied as the empty
    string: the test of line 107 takes it for a missing one and puts no
    underscore for it. *)
Lemma build_node_id_empty_part :
  build_node_id (py "25LADE") (py "25-2ZO") (Some []) (Some (py "ART1"))
    = py "TIT25LADE_CH25-2ZO_ART1" /\
  build_node_id (py "25LADE") (py "25-2ZO") (Some []) (Some (py "ART1"))
    <> py "TIT25LADE_CH25-2ZO" ++ py "_" ++ [] ++ py "_" ++ py "ART1".
Proof. split; [reflexivity | discriminate]. Qed.

(** C9, amended.  Title 25LADE and chapter 25-2ZO alone give
    TIT25LADE_CH25-2ZO, and with a subchapter and an article that are
    both supplied and not empty the result is TIT, the title, _CH, the
    chapter, then the subchapter and the article, an underscore before
    each. *)
Theorem build_node_id_parts (title chapter subchapter article : str) :
  subchapter <> [] -> article <> [] ->
  build_node_id (py "25LADE") (py "25-2ZO") None None = py "TIT25LADE_CH25-2ZO" /\
  build_node_id title chapter (Some subchapter) (Some article)
    = py "TIT" ++ title ++ py "_CH" ++ chapter
        ++ py "_" ++ subchapter ++ py "_" ++ article.
Proof.
  intros Hs Ha. split; [reflexivity|]. unfold build_node_id.
  destruct subchapter as [|c s]; [done|]. destruct article as [|d a]; [done|].
  cbn [truthy]. by rewrite <- !app_assoc.
Qed.

Lemma build_node_id_parts_witness :
  build_node_id (py "25LADE") (py "25-2ZO")
      (Some (py "SUBCHAPTER")) (Some (py "CUSDERE_ART2PRUSDERE"))
    = py "TIT25LADE_CH25-2ZO_SUBCHAPTER_CUSDERE_ART2PRUSDERE".
Proof.
  apply (build_node_id_parts (py "25LADE") (py "25-2ZO")
           (py "SUBCHAPTER") (py "CUSDERE_ART2PRUSDERE")); discriminate.
Defined.

(** ** The loop of [fetch_all_austin_chapters] *)

Lemma split_nonempty (sep : char) (s : str) : split sep s <> [].
Proof.
  destruct s as [|c s]; [done|]. cbn [split].
  destruct (c =? sep); [done|]. by destruct (split sep s).
Qed.

Lemma join_split (sep : char) (s : str) : join [sep] (split sep s) = s.
Proof.
  induction s as [|c s IH]; [done|]. cbn [split].
  pose proof (split_nonempty sep s) as Hne.
  destruct (c =? sep) eqn:E.
  - apply N.eqb_eq in E. subst. cbn [join].
    destruct (split sep s); [done|]. cbn [app]. by rewrite IH.
  - destruct (split sep s) as [|l ls]; [done|]. rewrite <- IH.
    by destruct ls.
Qed.

Lemma key_of_root (id : str) :
  (length (split (chr "_") id) <= 2)%nat ->
  join (py "_") (take 2 (split (chr "_") id)) = id.
Proof. intros H. rewrite take_ge by done. apply join_split. Qed.

Lemma attempts_app (t1 t2 : list event) :
  attempts (t1 ++ t2) = attempts t1 ++ attempts t2.
Proof. apply omap_app. Qed.

Lemma stored_app (t1 t2 : list event) :
  stored (t1 ++ t2) = stored t1 ++ stored t2.
Proof. apply omap_app. Qed.

Section Loop.
Context {World : Type}.
Variable get_available_chapters :
  Z -> Z -> str -> World -> outcome (list pydict) * World.
Variable get_chapter_content :
  MunicodeRequestParams -> World -> outcome MunicodeResponse * World.
Variable _save_json : pyval -> str -> World -> outcome unit * World.
Variable isalnum : char -> bool.

Local Abbreviation fetch key :=
  (fetch_and_store_chapter World get_chapter_content _save_json isalnum
     AUSTIN_job_id AUSTIN_title key AUSTIN_product_id).
Local Abbreviation turn := (iteration World get_chapter_content _save_json isalnum).
Local Abbreviation loop := (fetch_loop World get_chapter_content _save_json isalnum).
Local Abbreviation whole := (fetch_chapters World get_chapter_content _save_json isalnum).

(** A fetch writes to the log, but never a [Fetching] record, and it
    reports the chapter as stored exactly when it returns. *)
Lemma fetch_trace (key : str) (s : env World) :
  exists o s' t, fetch key s = (o, s') /\
    trace s' = trace s ++ t /\ attempts t = [] /\
    stored t = match o with Return _ => [key] | Raise _ => [] end.
Proof.
  unfold fetch_and_store_chapter, try_except, bind, perform, lift, emit, raise.
  destruct (get_chapter_content _ (world s)) as [[response|e] w].
  - destruct (sections_of (Docs response)) as [sections|e].
    + cbn [world]. destruct (_save_json _ _ w) as [[[]|e] w'].
      * eexists _, _, [_]. by repeat split.
      * eexists _, _, [_]. by repeat split.
    + eexists _, _, [_]. by repeat split.
  - eexists _, _, [_]. by repeat split.
Qed.

(** The two failures that the handler of [fetch_and_store_chapter] names
    in its message: the request and the write.  Either one is logged and
    raised again. *)
Lemma fetch_request_fails (key : str) (s : env World) (e : exn) (w : World) :
  get_chapter_content
    {| job_id := AUSTIN_job_id; node_id := key; product_id := AUSTIN_product_id |}
    (world s) = (Raise e, w) ->
  fetch key s
  = (Raise e, {| trace := trace s ++ [ErrorFetching key e]; world := w |}).
Proof.
  intros H.
  unfold fetch_and_store_chapter, try_except, bind, perform, emit, raise.
  by rewrite H.
Qed.

Lemma fetch_write_fails (key : str) (s : env World) (response : MunicodeResponse)
    (sections : list pyval) (e : exn) (w w' : World) :
  get_chapter_content
    {| job_id := AUSTIN_job_id; node_id := key; product_id := AUSTIN_product_id |}
    (world s) = (Return response, w) ->
  sections_of (Docs response) = Return sections ->
  (forall data, _save_json data
     (sub (re_unsafe isalnum) (py "_") key ++ py ".json") w = (Raise e, w')) ->
  fetch key s
  = (Raise e, {| trace := trace s ++ [ErrorFetching key e]; world := w' |}).
Proof.
  intros H Hs Hw.
  unfold fetch_and_store_chapter, try_except, bind, perform, lift, emit, raise.
  rewrite H, Hs. cbn [world]. by rewrite Hw.
Qed.

(** What one turn of the loop does to a node whose id is a string. *)
Lemma turn_str (chapter : pydict) (id : str) (p : gset str) (s : env World) :
  has_id chapter id ->
  turn chapter p s =
    if negb (truthy id) then (Return p, s)
    else
      let key := join (py "_") (take 2 (split (chr "_") id)) in
      if bool_decide (key ∈ p) then (Return p, s)
      else if (2 <? length (split (chr "_") id))%nat then (Return p, s)
      else match fetch key (logged s (Fetching key)) with
           | (Return _, s') => (Return ({[key]} ∪ p), logged s' (Sleep 1))
           | (Raise e, s') => (Return p, logged s' (FailedToFetch (PStr id) e))
           end.
Proof.
  intros Hid. unfold has_id in Hid.
  unfold iteration, loop_body, try_except. rewrite Hid. cbn [truth].
  destruct (truthy id); [|done]. cbn [negb split_value].
  unfold bind at 1. unfold lift at 1. cbn zeta.
  destruct (bool_decide _); [done|].
  unfold bind at 1. unfold lift at 1.
  destruct (2 <? _)%nat; [done|].
  unfold bind at 1. unfold emit at 1. unfold bind at 1.
  destruct (fetch _ _) as [[[]|e] s']; [|done].
  done.
Qed.

(** A turn always returns: its handler catches whatever the body raises. *)
Lemma turn_returns (chapter : pydict) (p : gset str) (s : env World) :
  exists p' s', turn chapter p s = (Return p', s').
Proof.
  unfold iteration, try_except.
  destruct (loop_body _ _ _ _ _ _ _) as [[p'|e] s']; [by eauto|].
  unfold bind, emit, ret. by eauto.
Qed.

Lemma loop_returns (chapters : list pydict) (p : gset str) (s : env World) :
  exists p' s', loop chapters p s = (Return p', s').
Proof.
  revert p s. induction chapters as [|c cs IH]; intros p s.
  - by exists p, s.
  - cbn [fetch_loop]. unfold bind at 1.
    destruct (turn_returns c p s) as (p1 & s1 & ->). apply IH.
Qed.

Lemma loop_app (pre post : list pydict) (p : gset str) (s : env World) :
  loop (pre ++ post) p s =
    match loop pre p s with
    | (Return p', s') => loop post p' s'
    | (Raise e, s') => (Raise e, s')
    end.
Proof.
  revert p s. induction pre as [|c cs IH]; intros p s; [done|].
  cbn [app fetch_loop]. unfold bind.
  destruct (turn c p s) as [[p1|e] s1]; [apply IH | done].
Qed.

(** Closes the case of a turn that leaves set and log as they are, up to
    the part about fetchable nodes. *)
Ltac passed_over p s :=
  exists p, s, []; rewrite app_nil_r;
  split; [done|]; split; [done|]; left;
  split; [done|]; split; [done|]; split; [done|].

(** The two ways a turn can end: the set is left alone and nothing is
    fetched, which for a fetchable node means that its key is in the
    set already; or the node is fetchable, its key is fetched once, and
    the key joins the set exactly when the fetch returned and reported
    the chapter as stored. *)
Lemma turn_cases (chapter : pydict) (p : gset str) (s : env World) :
  exists p' s' t,
    turn chapter p s = (Return p', s') /\ trace s' = trace s ++ t /\
    ((p' = p /\ attempts t = [] /\ stored t = [] /\
      forall id, chapter_root chapter id -> id ∈ p)
     \/ (exists id, chapter_root chapter id /\ (id ∉ p) /\ attempts t = [id] /\
           ((p' = p /\ stored t = []) \/
            (p' = {[id]} ∪ p /\ stored t = [id] /\
             exists s0 s1, fetch id s0 = (Return tt, s1))))).
Proof.
  destruct (get chapter (py "Id") (PStr [])) as [| | |id| |] eqn:Hv.
  1-3, 5-6:
    unfold iteration, loop_body, try_except; rewrite Hv;
    destruct (negb (truth _));
    [ passed_over p s; intros id (Hid & _); unfold has_id in Hid; congruence
    | cbn; eexists p, _, [_]; split; [done|]; split; [done|]; left;
      split; [done|]; split; [done|]; split; [done|];
      intros id (Hid & _); unfold has_id in Hid; congruence ].
  rewrite (turn_str _ id) by done.
  assert (forall i, chapter_root chapter i -> i = id) as Huniq.
  { intros i (Hi & _). unfold has_id in Hi. congruence. }
  destruct (truthy id) eqn:Hne; cbn [negb].
  2:{ passed_over p s.
      intros i Hi. pose proof (Huniq i Hi) as ->.
      destruct Hi as (_ & Hi & _). by destruct id. }
  cbv zeta. destruct (bool_decide _) eqn:Hin.
  { passed_over p s.
    intros i Hi. pose proof (Huniq i Hi) as ->.
    destruct Hi as (_ & _ & Hi). rewrite key_of_root in Hin by done.
    by apply bool_decide_eq_true in Hin. }
  destruct (2 <? _)%nat eqn:Hlen.
  { passed_over p s.
    intros i Hi. pose proof (Huniq i Hi) as ->.
    destruct Hi as (_ & _ & Hi). apply Nat.ltb_lt in Hlen. lia. }
  apply Nat.ltb_ge in Hlen. rewrite key_of_root in * by done.
  apply bool_decide_eq_false in Hin.
  assert (chapter_root chapter id) as Hroot.
  { repeat split; [done| by destruct id |done]. }
  destruct (fetch_trace id (logged s (Fetching id)))
    as (o & s1 & t & Hf & Ht & Ha & Hst).
  rewrite Hf. cbn [logged trace] in Ht.
  destruct o as [[]|e].
  - eexists _, _, ([Fetching id] ++ t ++ [Sleep 1]). split; [done|]. split.
    { cbn [logged trace]. rewrite Ht. by rewrite <- !app_assoc. }
    right. exists id. split; [done|]. split; [done|]. split.
    + by rewrite !attempts_app, Ha.
    + right. split; [done|]. split; [|by eauto].
      by rewrite !stored_app, Hst.
  - eexists _, _, ([Fetching id] ++ t ++ [FailedToFetch (PStr id) e]).
    split; [done|]. split.
    { cbn [logged trace]. rewrite Ht. by rewrite <- !app_assoc. }
    right. exists id. split; [done|]. split; [done|]. split.
    + by rewrite !attempts_app, Ha.
    + left. split; [done|]. by rewrite !stored_app, Hst.
Qed.

(** Every fetchable node of the list is in the set at the start or has
    its key fetched during the loop, whichever fetches fail; and the set
    grows by the chapters reported as stored, and by nothing else. *)
Lemma loop_trace (chapters : list pydict) (p p' : gset str)
    (s s' : env World) :
  loop chapters p s = (Return p', s') ->
  exists t, trace s' = trace s ++ t /\
    (forall n id, n ∈ chapters -> chapter_root n id ->
                  id ∈ p \/ id ∈ attempts t) /\
    (forall x, x ∈ p' <-> x ∈ p \/ x ∈ stored t).
Proof.
  revert p s. induction chapters as [|c cs IH]; intros p s.
  - intros [= <- <-]. exists []. rewrite app_nil_r. split; [done|]. split.
    + intros n id Hn. by apply elem_of_nil in Hn.
    + intros x. cbn. rewrite elem_of_nil. tauto.
  - cbn [fetch_loop]. unfold bind at 1.
    destruct (turn_cases c p s) as (p1 & s1 & t1 & -> & Ht1 & Hc).
    intros Hl. destruct (IH _ _ Hl) as (t2 & Ht2 & Hcs & Hset).
    exists (t1 ++ t2). split; [by rewrite Ht2, Ht1, app_assoc|]. split.
    + intros n id [->|Hn]%elem_of_cons Hroot;
        rewrite attempts_app, elem_of_app.
      * destruct Hc as [(_ & _ & _ & Hc)|(i & Hi & _ & Ha & _)];
          [by left; apply Hc|].
        assert (id = i) as ->.
        { destruct Hroot as (H1 & _), Hi as (H2 & _).
          unfold has_id in *. congruence. }
        right. left. rewrite Ha. left.
      * destruct (Hcs n id Hn Hroot) as [Hp1|Ht]; [|by right; right].
        destruct Hc as [(-> & _)|(i & _ & _ & Ha & [(-> & _)|(-> & _)])];
          [by left..|].
        apply elem_of_union in Hp1 as [->%elem_of_singleton|Hp]; [|by left].
        right. left. rewrite Ha. left.
    + intros x. rewrite Hset, stored_app, elem_of_app.
      destruct Hc as [(-> & _ & -> & _)
                     |(i & _ & _ & _ & [(-> & ->)|(-> & -> & _)])].
      * rewrite elem_of_nil. tauto.
      * rewrite elem_of_nil. tauto.
      * rewrite elem_of_union, elem_of_singleton, list_elem_of_singleton. tauto.
Qed.


Lemma failure_free_app (t1 t2 : list event) :
  failure_free (t1 ++ t2) = failure_free t1 && failure_free t2.
Proof. apply forallb_app. Qed.

(** A fetch logs the exception that it raises. *)
Lemma fetch_failure_logged (key : str) (s s' : env World) (e : exn) :
  fetch key s = (Raise e, s') ->
  trace s' = trace s ++ [ErrorFetching key e].
Proof.
  unfold fetch_and_store_chapter, try_except, bind, perform, lift, emit, raise.
  destruct (get_chapter_content _ (world s)) as [[response|e'] w].
  - destruct (sections_of (Docs response)) as [sections|e'].
    + cbn [world]. destruct (_save_json _ _ w) as [[[]|e'] w']; [done|].
      by intros [= <- <-].
    + by intros [= <- <-].
  - by intros [= <- <-].
Qed.

(** One turn in which no fetch fails does what one step of the
    deduplication says. *)
Lemma turn_failure_free (chapter : pydict) (p : gset str) (s : env World) :
  exists p' s' t,
    turn chapter p s = (Return p', s') /\ trace s' = trace s ++ t /\
    (failure_free t = true ->
     let id := id_text chapter in
     let key := join (py "_") (take 2 (split (chr "_") id)) in
     if negb (truthy id) then p' = p /\ attempts t = []
     else if (2 <? length (split (chr "_") id))%nat
          then p' = p /\ attempts t = []
     else if bool_decide (key ∈ p) then p' = p /\ attempts t = []
     else p' = {[key]} ∪ p /\ attempts t = [key]).
Proof.
  unfold id_text.
  destruct (get chapter (py "Id") (PStr [])) as [| | |id| |] eqn:Hv.
  1-3, 5-6:
    unfold iteration, loop_body, try_except; rewrite Hv;
    destruct (negb (truth _));
    [ exists p, s, []; by rewrite app_nil_r
    | cbn; by eexists p, _, [_] ].
  rewrite (turn_str _ id) by done.
  destruct (truthy id); cbn [negb];
    [|exists p, s, []; by rewrite app_nil_r].
  cbv zeta. set (key := join _ _).
  destruct (bool_decide (key ∈ p)).
  { exists p, s, []. rewrite app_nil_r. by destruct (2 <? _)%nat. }
  destruct (2 <? _)%nat; [exists p, s, []; by rewrite app_nil_r|].
  destruct (fetch_trace key (logged s (Fetching key)))
    as (o & s1 & t & Hf & Ht & Ha & _).
  rewrite Hf. cbn [logged trace] in Ht.
  destruct o as [[]|e].
  - eexists _, _, ([Fetching key] ++ t ++ [Sleep 1]). split; [done|]. split.
    { cbn [logged trace]. rewrite Ht. by rewrite <- !app_assoc. }
    intros _. split; [done|]. by rewrite !attempts_app, Ha.
  - apply fetch_failure_logged in Hf as Hlog. cbn [logged trace] in Hlog.
    eexists _, _, [Fetching key; ErrorFetching key e;
                   FailedToFetch (PStr id) e].
    split; [done|]. split; [|done].
    cbn [logged trace]. rewrite Hlog. by rewrite <- !app_assoc.
Qed.

(** A run in which no fetch fails fetches what the deduplication emits,
    and ends with the emitted keys in the set. *)
Lemma loop_failure_free (chapters : list pydict) :
  forall (p : gset str) (emitted : list str) (s : env World)
         (p' : gset str) (s' : env World) (t : list event),
    (forall k, k ∈ p <-> k ∈ emitted) ->
    loop chapters p s = (Return p', s') ->
    trace s' = trace s ++ t ->
    failure_free t = true ->
    attempts t = dedupe emitted (id_text <$> chapters) /\
    (forall k, k ∈ p' <->
               k ∈ emitted \/ k ∈ dedupe emitted (id_text <$> chapters)).
Proof.
  induction chapters as [|c cs IH]; intros p emitted s p' s' t Hinv.
  - intros [= <- <-] Htr _.
    rewrite <- (app_nil_r (trace s)) in Htr at 1.
    apply app_inv_head in Htr as <-. split; [done|].
    intros k. cbn. rewrite Hinv, elem_of_nil. tauto.
  - cbn [fetch_loop]. unfold bind at 1.
    destruct (turn_failure_free c p s) as (p1 & s1 & t1 & -> & Ht1 & Hc).
    intros Hl Htr Hff.
    destruct (loop_trace _ _ _ _ _ Hl) as (t2 & Ht2 & _).
    rewrite Ht2, Ht1, <- app_assoc in Htr.
    apply app_inv_head in Htr as <-.
    rewrite failure_free_app in Hff. apply andb_prop in Hff as [Hff1 Hff2].
    specialize (Hc Hff1). cbv zeta in Hc.
    rewrite attempts_app, fmap_cons. cbn [dedupe].
    rewrite <- (bool_decide_ext _ _ (Hinv _)).
    assert (forall q em, (forall k, k ∈ q <-> k ∈ em) ->
              p1 = q -> attempts t1 = [] ->
              attempts t1 ++ attempts t2 = dedupe em (id_text <$> cs) /\
              (forall k, k ∈ p' <->
                         k ∈ em \/ k ∈ dedupe em (id_text <$> cs))) as Hskip.
    { intros q em Hq -> ->.
      by apply (IH q em s1 p' s' t2 Hq Hl Ht2 Hff2). }
    destruct (negb (truthy (id_text c)));
      [destruct Hc; by apply (Hskip p emitted)|].
    destruct (2 <? _)%nat; [destruct Hc; by apply (Hskip p emitted)|].
    destruct (bool_decide _); [destruct Hc; by apply (Hskip p emitted)|].
    destruct Hc as [-> Ha]. rewrite Ha.
    set (key := join _ _) in *.
    destruct (IH ({[key]} ∪ p) (key :: emitted) s1 p' s' t2) as [Hat Hp'];
      [|done..|].
    { intros k. rewrite elem_of_union, elem_of_singleton, elem_of_cons.
      by rewrite Hinv. }
    split; [by rewrite Hat|].
    intros k. rewrite Hp', !elem_of_cons. tauto.
Qed.

(** The key of a fetchable node is fetched when the node is reached
    exactly when no earlier fetch has stored the chapter. *)
Lemma turn_after (pre : list pydict) (n : pydict) (k : str)
    (s s1 : env World) (p1 : gset str) (t1 : list event) :
  chapter_root n k ->
  loop pre ∅ s = (Return p1, s1) -> trace s1 = trace s ++ t1 ->
  exists p2 s2 t2,
    turn n p1 s1 = (Return p2, s2) /\ trace s2 = trace s1 ++ t2 /\
    attempts t2 = if bool_decide (k ∈ stored t1) then [] else [k].
Proof.
  intros Hroot Hpre Ht1.
  destruct (loop_trace _ _ _ _ _ Hpre) as (t1' & Ht1' & _ & Hset).
  rewrite Ht1 in Ht1'. apply app_inv_head in Ht1' as <-.
  destruct (turn_cases n p1 s1) as (p2 & s2 & t2 & Hturn & Ht2 & Hc).
  exists p2, s2, t2. split; [done|]. split; [done|].
  destruct Hc as [(_ & Ha & _ & Hin)|(i & Hi & Hnot & Ha & _)].
  - rewrite bool_decide_true; [done|].
    apply Hin, Hset in Hroot as [H|H]; [by apply elem_of_empty in H|done].
  - assert (i = k) as ->.
    { destruct Hroot as (H1 & _), Hi as (H2 & _).
      unfold has_id in *. congruence. }
    rewrite bool_decide_false; [done|].
    intros H. apply Hnot, Hset. by right.
Qed.

(** Around the loop: a failed discovery is raised again by the bulk
    fetch, and once the listing is there and saved, the bulk fetch
    returns whatever the chapters do. *)
Lemma bulk_fetch_raises (s : env World) (e : exn) (w : World) :
  get_available_chapters AUSTIN_job_id AUSTIN_product_id AUSTIN_root_node_id
    (world s) = (Raise e, w) ->
  exists s',
    fetch_all_austin_chapters World get_available_chapters
      get_chapter_content _save_json isalnum s = (Raise e, s').
Proof.
  intros H.
  unfold fetch_all_austin_chapters, discover_chapters, try_except, bind,
    perform, emit, raise.
  cbn [logged world]. rewrite H. by eauto.
Qed.

Lemma bulk_fetch_returns (s : env World) (chapters : list pydict)
    (w w' : World) :
  get_available_chapters AUSTIN_job_id AUSTIN_product_id AUSTIN_root_node_id
    (world s) = (Return chapters, w) ->
  _save_json (PDict {[ py "chapters" := PList (PDict <$> chapters) ]})
    (py "chapter_structure.json") w = (Return tt, w') ->
  exists s',
    fetch_all_austin_chapters World get_available_chapters
      get_chapter_content _save_json isalnum s = (Return tt, s').
Proof.
  intros H Hw.
  unfold fetch_all_austin_chapters, discover_chapters, fetch_chapters,
    try_except, bind, perform, emit, ret.
  cbn [logged world]. rewrite H. cbn [logged world]. rewrite Hw.
  match goal with
  | |- context [fetch_loop _ _ _ _ ?cs ?p ?s0] =>
      destruct (loop_returns cs p s0) as (p' & s' & ->)
  end.
  by eauto.
Qed.

(** C1, amended.  Every pass over a listing returns, and its log tells
    what was fetched.  In a pass in which no fetch fails, the keys
    handed to [fetch_and_store_chapter] are, in this order, the keys
    that deduplication as the specification words it emits: first-seen
    order, nodes with an empty or null id, with an id of more than two
    segments or with a key already emitted left out; and these keys
    make up the final set.  Whatever fails, the key of a fetchable
    node is fetched when the node is reached exactly when no earlier
    fetch has stored the chapter: a key is recorded only once its fetch
    has returned, so a key whose fetch failed is fetched again at the
    next fetchable node that carries it.  For the five ids of the
    example the deduplication gives TIT1_CH1 and TIT1_CH2. *)
Theorem loop_emits_dedupe (chapters : list pydict) (s : env World) :
  (exists p s' t,
      whole chapters s = (Return p, s') /\
      trace s' = trace s ++ t ++ [Processed (size p)] /\
      (failure_free t = true ->
       attempts t = dedupe [] (id_text <$> chapters) /\
       (forall k, k ∈ p <-> k ∈ dedupe [] (id_text <$> chapters))) /\
      (forall pre n post k,
          chapters = pre ++ n :: post -> chapter_root n k ->
          exists p1 s1 t1 p2 s2 t2 t3,
            loop pre ∅ s = (Return p1, s1) /\ trace s1 = trace s ++ t1 /\
            turn n p1 s1 = (Return p2, s2) /\ trace s2 = trace s1 ++ t2 /\
            t = t1 ++ t2 ++ t3 /\
            attempts t2 = if bool_decide (k ∈ stored t1) then [] else [k])) /\
  dedupe [] example_ids = [py "TIT1_CH1"; py "TIT1_CH2"].
Proof.
  split; [|reflexivity].
  destruct (loop_returns chapters ∅ s) as (p & s' & Hl).
  destruct (loop_trace _ _ _ _ _ Hl) as (t & Ht & _).
  exists p, (logged s' (Processed (size p))), t. split.
  { unfold fetch_chapters, bind. by rewrite Hl. }
  split; [cbn [logged trace]; by rewrite Ht, app_assoc|]. split.
  - intros Hff.
    destruct (loop_failure_free chapters ∅ [] s p s' t) as [Ha Hp];
      [|done..|].
    { intros k. by rewrite elem_of_empty, elem_of_nil. }
    split; [done|]. intros k. rewrite Hp, elem_of_nil. tauto.
  - intros pre n post k -> Hroot.
    rewrite loop_app in Hl.
    destruct (loop_returns pre ∅ s) as (p1 & s1 & Hpre).
    rewrite Hpre in Hl. cbn [fetch_loop] in Hl. unfold bind at 1 in Hl.
    destruct (loop_trace _ _ _ _ _ Hpre) as (t1 & Ht1 & _).
    destruct (turn_after pre n k s s1 p1 t1 Hroot Hpre Ht1)
      as (p2 & s2 & t2 & Hturn & Ht2 & Ha).
    rewrite Hturn in Hl.
    destruct (loop_trace _ _ _ _ _ Hl) as (t3 & Ht3 & _).
    exists p1, s1, t1, p2, s2, t2, t3. repeat (split; [done|]).
    split; [|done].
    rewrite Ht3, Ht2, Ht1, <- !app_assoc in Ht.
    by apply app_inv_head in Ht.
Qed.

(** C6, amended.  A node whose id is empty or missing is passed over
    without a trace: the loop goes on as if the node were not in the
    listing.  A node whose id is not empty and holds no underscore is not
    passed over: the id is its own key and is fetched, unless the set
    holds it already. *)
Theorem empty_id_skipped_bare_id_fetched (pre post : list pydict)
    (n : pydict) (id : str) (p : gset str) (s : env World) :
  (has_id n [] -> loop (pre ++ n :: post) p s = loop (pre ++ post) p s) /\
  (has_id n id -> id <> [] -> chr "_" ∉ id -> id ∉ p ->
   exists p' s' t,
     turn n p s = (Return p', s') /\
     trace s' = trace s ++ Fetching id :: t /\ attempts t = []).
Proof.
  split.
  - intros Hn. rewrite !loop_app.
    destruct (loop pre p s) as [[p1|e] s1]; [|done].
    cbn [fetch_loop]. unfold bind at 1. by rewrite (turn_str _ []).
  - intros Hn Hne Hus Hp. rewrite (turn_str _ id) by done.
    destruct id as [|c id]; [done|]. cbn [truthy negb]. cbv zeta.
    rewrite split_no_sep by done. cbn [take join length Nat.ltb Nat.leb].
    rewrite bool_decide_false by done.
    destruct (fetch_trace (c :: id) (logged s (Fetching (c :: id))))
      as (o & s1 & t & Hf & Ht & Ha & _).
    rewrite Hf. cbn [logged trace] in Ht.
    destruct o as [[]|e]; eexists _, _, (t ++ [_]);
      (split; [done|]); cbn [logged trace]; rewrite Ht, attempts_app, Ha;
      by rewrite <- !app_assoc.
Qed.


End Loop.

(** *** Runs against the stand-ins *)

Lemma loop_emits_dedupe_witness :
  exists p s' t,
    fetch_chapters nat Stub.content_ok Stub.save_ok Stub.alnum
      (node_of_id <$> example_ids) Stub.start = (Return p, s') /\
    trace s' = trace Stub.start ++ t ++ [Processed (size p)] /\
    failure_free t = true /\
    attempts t = [py "TIT1_CH1"; py "TIT1_CH2"] /\
    (forall k, k ∈ p <-> k ∈ [py "TIT1_CH1"; py "TIT1_CH2"]).
Proof.
  destruct (loop_emits_dedupe Stub.content_ok Stub.save_ok Stub.alnum
              (node_of_id <$> example_ids) Stub.start)
    as ((p & s' & t & Hrun & Htr & Hok & _) & _).
  exists p, s', t. split; [exact Hrun|]. split; [exact Htr|].
  assert (t = [Fetching (py "TIT1_CH1"); Stored (py "TIT1_CH1"); Sleep 1;
               Fetching (py "TIT1_CH2"); Stored (py "TIT1_CH2"); Sleep 1])
    as Ht.
  { assert (trace (snd (fetch_chapters nat Stub.content_ok Stub.save_ok
                          Stub.alnum (node_of_id <$> example_ids) Stub.start))
            = [Fetching (py "TIT1_CH1"); Stored (py "TIT1_CH1"); Sleep 1;
               Fetching (py "TIT1_CH2"); Stored (py "TIT1_CH2"); Sleep 1]
              ++ [Processed 2]) as Hc by (vm_compute; reflexivity).
    rewrite Hrun in Hc. cbn [snd] in Hc. rewrite Htr in Hc.
    cbn [Stub.start trace] in Hc. rewrite app_nil_l in Hc.
    by apply app_inj_tail in Hc as [-> _]. }
  rewrite Ht in *. split; [reflexivity|]. exact (Hok eq_refl).
Defined.

(** C1, as stated, fails when a fetch fails: the key is not recorded,
    and the later node that carries it is fetched again.  Here the
    service fails the first request only. *)
Lemma failed_key_fetched_again :
  attempts (trace (snd
    (fetch_chapters nat Stub.content_first_fails Stub.save_ok
       Stub.alnum (node_of_id <$> example_ids) Stub.start)))
  = [py "TIT1_CH1"; py "TIT1_CH2"; py "TIT1_CH1"] /\
  attempts (trace (snd
    (fetch_chapters nat Stub.content_first_fails Stub.save_ok
       Stub.alnum (node_of_id <$> example_ids) Stub.start)))
  <> [py "TIT1_CH1"; py "TIT1_CH2"].
Proof. split; [vm_compute; reflexivity | vm_compute; discriminate]. Qed.

Lemma empty_id_skipped_bare_id_fetched_witness :
  fetch_loop nat Stub.content_ok Stub.save_ok Stub.alnum
    ([node_of_id (py "TIT1_CH1")] ++ node_of_id [] :: [node_of_id (py "TIT1_CH2")])
    ∅ Stub.start
  = fetch_loop nat Stub.content_ok Stub.save_ok Stub.alnum
      ([node_of_id (py "TIT1_CH1")] ++ [node_of_id (py "TIT1_CH2")])
      ∅ Stub.start /\
  exists p' s' t,
    iteration nat Stub.content_ok Stub.save_ok Stub.alnum
      (node_of_id (py "TIT25LADE")) ∅ Stub.start = (Return p', s') /\
    trace s' = trace Stub.start ++ Fetching (py "TIT25LADE") :: t /\
    attempts t = [].
Proof.
  split.
  - apply (empty_id_skipped_bare_id_fetched Stub.content_ok Stub.save_ok
             Stub.alnum _ _ (node_of_id []) []). reflexivity.
  - apply (empty_id_skipped_bare_id_fetched Stub.content_ok Stub.save_ok
             Stub.alnum [] [] (node_of_id (py "TIT25LADE")) (py "TIT25LADE")).
    + reflexivity.
    + discriminate.
    + apply (bool_decide_unpack _). vm_compute. exact I.
    + apply not_elem_of_empty.
Defined.

(** C6, as stated, fails for an id without underscore: the root node of
    the listing is fetched as a chapter and counted. *)
Lemma bare_id_is_fetched :
  (chr "_" ∉ py "TIT25LADE") /\
  trace (snd
    (fetch_chapters nat Stub.content_ok Stub.save_ok Stub.alnum
       [node_of_id (py "TIT25LADE")] Stub.start))
  = [Fetching (py "TIT25LADE"); Stored (py "TIT25LADE"); Sleep 1; Processed 1] /\
  attempts (trace (snd
    (fetch_chapters nat Stub.content_ok Stub.save_ok Stub.alnum
       [node_of_id (py "TIT25LADE")] Stub.start)))
  <> [].
Proof.
  split; [apply (bool_decide_unpack _); vm_compute; exact I|].
  split; [vm_compute; reflexivity | vm_compute; discriminate].
Qed.



(** * Further properties of [client.py] *)

(** ** [get_sections_by_depth] *)

Lemma eq_int_unique (v : pyval) (d d' : Z) :
  eq_int v d = true -> eq_int v d' = (d =? d')%Z.
Proof.
  destruct v as [|b|x| | |]; cbn; try done.
  - intros ->%Z.eqb_eq. done.
  - intros ->%Z.eqb_eq. done.
Qed.

(** X1.  Filtering by depth twice: the sections at depth [d'] among the
    sections at depth [d] are the sections at depth [d] when the two
    depths are the same, and none otherwise. *)
Theorem depth_filter_twice (docs : list MunicodeDoc) (d d' : Z) :
  get_sections_by_depth (get_sections_by_depth docs d) d'
  = if (d =? d')%Z then get_sections_by_depth docs d else [].
Proof.
  unfold get_sections_by_depth.
  induction docs as [|doc docs IH]; [by destruct (d =? d')%Z|].
  rewrite filter_cons. case_decide as Hd; [|exact IH].
  rewrite filter_cons, IH, (eq_int_unique _ _ _ Hd).
  destruct (d =? d')%Z; [by rewrite decide_True | by rewrite decide_False].
Qed.

(** X2.  Response elements that carry no [NodeDepth] give documents that
    are all found at depth 0 and at no other depth. *)
Theorem depth_of_missing_field (elements : list pydict) (depth : Z) :
  Forall (fun doc_data => doc_data !! py "NodeDepth" = None) elements ->
  get_sections_by_depth (doc_of_data <$> elements) depth
  = if (depth =? 0)%Z then doc_of_data <$> elements else [].
Proof.
  unfold get_sections_by_depth.
  induction 1 as [|e es He _ IH]; [by destruct (depth =? 0)%Z|].
  rewrite fmap_cons, filter_cons, IH.
  assert (eq_int (NodeDepth (doc_of_data e)) depth = (depth =? 0)%Z) as Hq.
  { cbv [doc_of_data NodeDepth get]. rewrite He. cbn [eq_int].
    apply Z.eqb_sym. }
  rewrite Hq.
  destruct (depth =? 0)%Z; [by rewrite decide_True | by rewrite decide_False].
Qed.

Lemma depth_of_missing_field_witness :
  get_sections_by_depth
    (doc_of_data <$> [node_of_id (py "TIT1_CH1"); node_of_id (py "TIT1_CH2")]) 0
  = doc_of_data <$> [node_of_id (py "TIT1_CH1"); node_of_id (py "TIT1_CH2")].
Proof.
  apply (depth_of_missing_field
           [node_of_id (py "TIT1_CH1"); node_of_id (py "TIT1_CH2")] 0).
  repeat constructor.
Defined.

(** ** [get_section_by_id] *)

Lemma eq_str_true (v : pyval) (id : str) :
  eq_str v id = true <-> v = PStr id.
Proof.
  unfold eq_str. destruct v as [| | |x| |]; try done.
  rewrite bool_decide_eq_true. split; [by intros -> | by intros [= ->]].
Qed.

(** X3.  The lookup returns the first document whose id is the string
    asked for, and [None] exactly when the list has no such document. *)
Theorem section_by_id_first (docs : list MunicodeDoc) (id : str) :
  match get_section_by_id docs id with
  | Some doc =>
      exists pre post, docs = pre ++ doc :: post /\ Id doc = PStr id /\
        forall d, d ∈ pre -> Id d <> PStr id
  | None => forall d, d ∈ docs -> Id d <> PStr id
  end.
Proof.
  unfold get_section_by_id.
  pose proof (fun d : MunicodeDoc => eq_str_true (Id d) id) as Heq.
  induction docs as [|doc docs IH]; cbn [List.find].
  - intros d Hd. by apply elem_of_nil in Hd.
  - destruct (eq_str (Id doc) id) eqn:E.
    + exists [], docs. split; [done|]. split; [by apply Heq|].
      intros d Hd. by apply elem_of_nil in Hd.
    + assert (Id doc <> PStr id) as Hne.
      { intros H%Heq. congruence. }
      destruct (List.find _ docs) as [found|].
      * destruct IH as (pre & post & -> & Hid & Hpre).
        exists (doc :: pre), post. split; [done|]. split; [done|].
        intros d [->|Hd]%elem_of_cons; [done | by apply Hpre].
      * intros d [->|Hd]%elem_of_cons; [done | by apply IH].
Qed.

(** X4.  When no two documents of the list have the same id, looking up
    the id of a document of the list returns that document. *)
Theorem section_by_id_round_trip (docs : list MunicodeDoc) (i : nat)
    (doc : MunicodeDoc) (id : str) :
  NoDup (Id <$> docs) ->
  docs !! i = Some doc -> Id doc = PStr id ->
  get_section_by_id docs id = Some doc.
Proof.
  intros Hnd Hi Hid. unfold get_section_by_id.
  revert i Hi. induction docs as [|d ds IH]; intros i Hi; [done|].
  rewrite fmap_cons in Hnd. apply NoDup_cons in Hnd as [Hnot Hnd].
  cbn [List.find]. destruct (eq_str (Id d) id) eqn:E.
  - apply eq_str_true in E. destruct i as [|j]; [by injection Hi as ->|].
    exfalso. apply Hnot. rewrite E, <- Hid.
    apply list_elem_of_fmap_2. by eapply list_elem_of_lookup_2.
  - destruct i as [|j]; [|by eapply IH].
    injection Hi as ->. apply eq_str_true in Hid. congruence.
Qed.

Lemma section_by_id_round_trip_witness :
  get_section_by_id
    (doc_of_data <$> [node_of_id (py "TIT1_CH1"); node_of_id (py "TIT1_CH2")])
    (py "TIT1_CH2")
  = Some (doc_of_data (node_of_id (py "TIT1_CH2"))).
Proof.
  apply (section_by_id_round_trip
           (doc_of_data <$>
              [node_of_id (py "TIT1_CH1"); node_of_id (py "TIT1_CH2")])
           1%nat).
  - vm_compute. apply NoDup_cons. split; [|apply NoDup_singleton].
    rewrite list_elem_of_singleton. discriminate.
  - reflexivity.
  - reflexivity.
Defined.

(** ** [search_sections] *)

Section SearchFacts.
Variable lower : str -> str.

Lemma contains_empty (hay : str) : contains [] hay = true.
Proof. by destruct hay. Qed.

Lemma field_matches_returns (term : str) (v : pyval) (b : bool) :
  field_matches lower term v = Return b -> text_or_falsy v.
Proof.
  unfold field_matches, text_or_falsy.
  destruct (truth v) eqn:E; [|by left].
  destruct v; try done. by eauto.
Qed.

(** X5.  With a query whose lower case is the empty string, the search
    returns every document, in order, as soon as each title is a string
    or a falsy value; the contents are not looked at, whatever they
    are. *)
Theorem search_empty_query (docs : list MunicodeDoc) (query : str) :
  lower query = [] ->
  Forall (fun doc => text_or_falsy (Title doc)) docs ->
  search_sections lower docs query = Return docs.
Proof.
  intros Hq H. unfold search_sections. rewrite Hq.
  induction H as [|doc docs Ht _ IH]; [done|].
  cbn [matching]. rewrite IH.
  assert (doc_matches lower [] doc = Return true) as ->; [|done].
  unfold doc_matches, field_matches.
  destruct Ht as [->|[t ->]].
  - by rewrite contains_empty.
  - destruct (truth (PStr t)); by rewrite contains_empty.
Qed.

(** X6.  When the search returns, every title of the list is a string or
    a falsy value; the documents found are those of the list whose
    condition holds, in the order of the list; and searching again among
    them with the same query returns them all. *)
Theorem search_returns (docs found : list MunicodeDoc) (query : str) :
  search_sections lower docs query = Return found ->
  Forall (fun doc => text_or_falsy (Title doc)) docs /\
  found `sublist_of` docs /\
  (forall doc, doc ∈ found <->
     doc ∈ docs /\ doc_matches lower (lower query) doc = Return true) /\
  search_sections lower found query = Return found.
Proof.
  unfold search_sections. generalize (lower query) as term. intros term.
  revert found. induction docs as [|doc docs IH]; intros found.
  - intros [= <-]. split; [constructor|]. split; [constructor|].
    split; [|done]. intros d. rewrite elem_of_nil. tauto.
  - cbn [matching].
    destruct (doc_matches lower term doc) as [b|e] eqn:Hd; [|done].
    destruct (matching lower term docs) as [rest|e] eqn:Hr; [|done].
    intros [= <-].
    destruct (IH rest eq_refl) as (Ht & Hsub & Hmem & Hidem).
    assert (text_or_falsy (Title doc)) as Htitle.
    { unfold doc_matches in Hd.
      destruct (field_matches lower term (Title doc)) as [b'|e'] eqn:Hf;
        [|done].
      by eapply field_matches_returns. }
    split; [by constructor|].
    destruct b.
    + split; [by constructor|]. split.
      * intros d. rewrite !elem_of_cons, Hmem. split.
        -- intros [->|[? ?]]; [by split; [left|] | by split; [right|]].
        -- intros [[->|?] ?]; [by left | by right].
      * cbn [matching]. by rewrite Hd, Hidem.
    + split; [by constructor|]. split; [|done].
      intros d. rewrite elem_of_cons, Hmem. split.
      * intros [? ?]. by split; [right|].
      * intros [[->|?] ?]; [congruence | done].
Qed.

End SearchFacts.

Lemma search_empty_query_witness :
  search_sections lower_ascii
    [doc_of_data (node_of_id (py "TIT1_CH1"));
     doc_of_data {[ py "Title" := PNone; py "Content" := PInt 7 ]}] []
  = Return
      [doc_of_data (node_of_id (py "TIT1_CH1"));
       doc_of_data {[ py "Title" := PNone; py "Content" := PInt 7 ]}].
Proof.
  apply (search_empty_query lower_ascii).
  - reflexivity.
  - repeat constructor.
Defined.

Lemma search_returns_witness :
  Forall (fun doc => text_or_falsy (Title doc))
    [doc_of_data {[ py "Title" := PStr (py "Setback rules") ]};
     doc_of_data {[ py "Title" := PStr (py "Parking") ]}].
Proof.
  apply (search_returns lower_ascii _
           [doc_of_data {[ py "Title" := PStr (py "Setback rules") ]}]
           (py "SETBACK")).
  vm_compute. reflexivity.
Defined.

(** * Further properties of [get_clean_content] *)

(** ** The scanner, by what it keeps and what it replaces *)

Lemma angles_cons (c : char) (s : str) :
  angles (c :: s) = if angle c then c :: angles s else angles s.
Proof.
  unfold angles. rewrite filter_cons.
  destruct (angle c); [by rewrite decide_True|by rewrite decide_False].
Qed.

Lemma angles_app (s t : str) : angles (s ++ t) = angles s ++ angles t.
Proof. apply filter_app. Qed.

Section ScanFacts.
Variables (m : str -> option nat) (repl : str).

Lemma scan_skip (k : nat) (s : str) :
  scan m repl k s = scan m repl 0 (drop k s).
Proof.
  revert k. induction s as [|c s IH]; intros [|k]; try done.
  cbn [scan drop]. apply IH.
Qed.

(** A relation between the result and the text holds when it is kept by
    a character passed on and by an occurrence replaced. *)
Lemma scan_rel (R : str -> str -> Prop) :
  R [] [] ->
  (forall c a b, (forall n, m (c :: b) <> Some (S n)) ->
                 R a b -> R (c :: a) (c :: b)) ->
  (forall c a b n, m (c :: b) = Some (S n) ->
                   R a (drop n b) -> R (repl ++ a) (c :: b)) ->
  forall s, R (scan m repl 0 s) s.
Proof.
  intros Hnil Hkeep Hrepl s.
  assert (forall n s, (length s <= n)%nat -> R (scan m repl 0 s) s) as H;
    [|by eauto].
  clear s. induction n as [|n IH]; intros [|c b] Hlen;
    cbn [length] in Hlen; try done; try lia.
  cbn [scan]. destruct (m (c :: b)) as [[|k]|] eqn:E.
  - apply Hkeep; [intros k; congruence|]. apply IH. lia.
  - rewrite scan_skip. apply Hrepl with k; [done|].
    apply IH. rewrite length_drop. lia.
  - apply Hkeep; [intros k; congruence|]. apply IH. lia.
Qed.

(** The result is no longer than the text when no occurrence is shorter
    than the replacement. *)
Lemma scan_length (s : str) :
  (forall t n, m t = Some n -> (length repl <= n <= length t)%nat) ->
  (length (scan m repl 0 s) <= length s)%nat.
Proof.
  intros Hm.
  apply (scan_rel (fun out s => (length out <= length s)%nat)); [done|..].
  - intros c a b _ H. cbn [length]. lia.
  - intros c a b n E H. apply Hm in E. cbn [length] in E.
    rewrite length_app. rewrite length_drop in H. cbn [length]. lia.
Qed.

(** The angle brackets stay as they are when neither the occurrences
    nor the replacement hold one. *)
Lemma scan_angles (s : str) :
  angles repl = [] ->
  (forall t n, m t = Some n -> angles (take n t) = []) ->
  angles (scan m repl 0 s) = angles s.
Proof.
  intros Hrepl Hm.
  apply (scan_rel (fun out s => angles out = angles s)); [done|..].
  - intros c a b _ H. cbv beta in *. rewrite !angles_cons. by rewrite H.
  - intros c a b n E H. apply Hm in E. cbv beta in *.
    rewrite angles_app, Hrepl, H. cbn [app].
    rewrite <- (take_drop (S n) (c :: b)) at 1.
    by rewrite angles_app, E.
Qed.

End ScanFacts.

(** ** What a match is made of *)

Lemma star_len_sound (p : char -> bool) (k : str -> option nat) (s : str)
    (n : nat) :
  star_len p k s = Some n ->
  exists j m', n = (j + m')%nat /\ (j <= length s)%nat /\
    Forall (fun c => p c = true) (take j s) /\ k (drop j s) = Some m'.
Proof.
  revert n. induction s as [|c s IH]; intros n; cbn [star_len].
  - intros H. exists 0%nat, n. by repeat split.
  - assert (k (c :: s) = Some n ->
            exists j m', n = (j + m')%nat /\ (j <= length (c :: s))%nat /\
              Forall (fun c => p c = true) (take j (c :: s)) /\
              k (drop j (c :: s)) = Some m') as Hstop.
    { intros H. exists 0%nat, n. repeat split; [lia|constructor|done]. }
    destruct (p c) eqn:E; [|done].
    destruct (star_len p k s) as [n'|] eqn:E'; [|done].
    intros [= <-]. destruct (IH _ eq_refl) as (j & m' & -> & Hj & Hf & Hk).
    exists (S j), m'. cbn [take drop length].
    repeat split; [lia|by constructor|done].
Qed.

Lemma in_classes_head (i : item) (r : regex) (l : str) :
  Forall (fun c => class_of i c = true) l ->
  Forall (fun c => in_classes (i :: r) c = true) l.
Proof.
  intros Hl. eapply Forall_impl; [exact Hl|].
  intros c H. unfold in_classes. cbn [existsb]. by rewrite H.
Qed.

Lemma in_classes_tail (i : item) (r : regex) (l : str) :
  Forall (fun c => in_classes r c = true) l ->
  Forall (fun c => in_classes (i :: r) c = true) l.
Proof.
  intros Hl. eapply Forall_impl; [exact Hl|].
  intros c H. unfold in_classes in *. cbn [existsb] in *.
  rewrite H. apply orb_true_r.
Qed.

(** A match lies inside the text, is at least as long as the pattern
    asks for, and every character of it is in a class of the pattern. *)
Lemma match_len_sound (r : regex) (s : str) (n : nat) :
  match_len r s = Some n ->
  (min_len r <= n <= length s)%nat /\
  Forall (fun c => in_classes r c = true) (take n s).
Proof.
  revert s n. induction r as [|i r IH]; intros s n.
  { intros [= <-]. split; [cbn; lia|]. rewrite take_0. constructor. }
  assert (forall s n, star_len (class_of i) (match_len r) s = Some n ->
            (min_len r <= n <= length s)%nat /\
            Forall (fun c => in_classes (i :: r) c = true) (take n s))
    as Hstar.
  { intros t k H.
    apply star_len_sound in H as (j & m' & -> & Hj & Hf & Hk).
    apply IH in Hk as [Hm Hr]. rewrite length_drop in Hm.
    split; [lia|]. rewrite <- take_take_drop. apply Forall_app. split.
    - by apply in_classes_head.
    - by apply in_classes_tail. }
  assert (forall c s n, class_of i c = true ->
            (min_len r <= n <= length s)%nat /\
            Forall (fun c => in_classes (i :: r) c = true) (take n s) ->
            (S (min_len r) <= S n <= length (c :: s))%nat /\
            Forall (fun c => in_classes (i :: r) c = true)
              (take (S n) (c :: s))) as Hone.
  { intros c t k Hc [Hm Hf]. cbn [length take]. split; [lia|].
    constructor; [|done]. unfold in_classes. cbn [existsb]. by rewrite Hc. }
  assert (forall s n, match_len r s = Some n ->
            (min_len r <= n <= length s)%nat /\
            Forall (fun c => in_classes (i :: r) c = true) (take n s))
    as Hrest.
  { intros t k H. apply IH in H as [Hm Hf]. split; [done|].
    by apply in_classes_tail. }
  destruct i as [p|p|p|p]; cbn [match_len min_len class_of] in *.
  - destruct s as [|c s]; [done|]. destruct (p c) eqn:E; [|done].
    destruct (match_len r s) as [k|] eqn:Ek; [|done]. intros [= <-].
    apply Hone; [done|]. by apply Hrest.
  - apply Hstar.
  - destruct s as [|c s]; [done|]. destruct (p c) eqn:E; [|done].
    destruct (star_len p (match_len r) s) as [k|] eqn:Ek; [|done].
    intros [= <-]. apply Hone; [done|]. by apply Hstar.
  - destruct s as [|c s]; [apply Hrest|].
    destruct (p c) eqn:E; [|apply Hrest].
    destruct (match_len r s) as [k|] eqn:Ek; [|apply Hrest].
    intros [= <-].
    destruct (Hone c s k E (Hrest _ _ Ek)) as [Hm Hf]. split; [lia|done].
Qed.

Lemma startswith_take (p s : str) :
  startswith p s = true -> take (length p) s = p /\ (length p <= length s)%nat.
Proof.
  revert s. induction p as [|a p IH]; intros [|b s]; cbn; try done.
  - split; [done|lia].
  - intros [Hab Hp]%andb_prop. apply N.eqb_eq in Hab as ->.
    destruct (IH _ Hp) as [-> Hl]. split; [done|lia].
Qed.

Lemma occurs_sound (old s : str) (n : nat) :
  occurs old s = Some n ->
  n = length old /\ take n s = old /\ (n <= length s)%nat.
Proof.
  unfold occurs. destruct (startswith old s) eqn:E; [|done].
  intros [= <-]. by apply startswith_take in E as [? ?].
Qed.

(** ** The cleaned text is no longer than the raw one *)

Lemma sub_length (r : regex) (repl s : str) :
  (length repl <= min_len r)%nat ->
  (length (sub r repl s) <= length s)%nat.
Proof.
  intros H. apply scan_length. intros t n E.
  apply match_len_sound in E as [E _]. lia.
Qed.

Lemma replace_length (old new s : str) :
  (length new <= length old)%nat ->
  (length (replace old new s) <= length s)%nat.
Proof.
  intros H. apply scan_length. intros t n E.
  apply occurs_sound in E as (-> & _ & E). lia.
Qed.

Lemma lstrip_length (s : str) : (length (lstrip s) <= length s)%nat.
Proof.
  induction s as [|c s IH]; [done|]. cbn [lstrip].
  destruct (isspace c); cbn [length]; lia.
Qed.

Lemma rstrip_length (s : str) : (length (rstrip s) <= length s)%nat.
Proof.
  induction s as [|c s IH]; [done|]. cbn [rstrip].
  destruct (rstrip s); [destruct (isspace c)|]; cbn [length] in *; lia.
Qed.

Lemma collapse_length (b : bool) (s : str) :
  (length (collapse b s) <= length s)%nat.
Proof.
  revert b. induction s as [|c s IH]; intros b; [done|]. cbn [collapse].
  pose proof (IH true). pose proof (IH false).
  destruct (isspace c); [destruct b|]; cbn [length]; lia.
Qed.

Lemma strip_markup_length (s : str) :
  (length (strip_markup s) <= length s)%nat.
Proof.
  unfold strip_markup.
  repeat first
    [ etransitivity; [apply sub_length; cbn; lia|]
    | etransitivity; [apply replace_length; cbn; lia|] ].
  done.
Qed.

(** X18.  Cleaning never lengthens a text: every rewriting of lines
    174-199 puts at most as many characters as it takes away. *)
Theorem clean_never_longer (c : str) :
  (length (get_clean_content (Some c)) <= length c)%nat.
Proof.
  unfold get_clean_content. destruct (negb (truthy c)); [cbn; lia|].
  rewrite normalize_space_eq. unfold strip.
  etransitivity; [apply rstrip_length|].
  etransitivity; [apply lstrip_length|].
  etransitivity; [apply collapse_length|].
  apply strip_markup_length.
Qed.

(** ** No tag is left *)

Lemma has_gt_drop (n : nat) (s : str) :
  has_gt (drop n s) = true -> has_gt s = true.
Proof.
  revert n. induction s as [|c s IH]; intros [|n]; try done.
  cbn [drop]. intros H%IH. unfold has_gt in *. cbn [existsb].
  rewrite H. apply orb_true_r.
Qed.

(** Where a closing bracket follows, the pattern of line 177 matches at
    an opening bracket. *)
Lemma tag_found (s : str) :
  has_gt s = true -> exists n, match_len re_tag (chr "<" :: s) = Some (S n).
Proof.
  intros H.
  change (match_len re_tag (chr "<" :: s))
    with (S <$> star_len (except ">") (match_len [One (only ">")]) s).
  enough (exists n, star_len (except ">") (match_len [One (only ">")]) s
                    = Some n) as [n ->] by by exists n.
  induction s as [|c s IH]; [done|]. cbn [star_len].
  unfold has_gt in H. cbn [existsb] in H. unfold except at 1.
  destruct (c =? chr ">") eqn:E; cbn [negb].
  - cbn [match_len]. unfold only. rewrite E. by eexists.
  - destruct (IH H) as [n ->]. by eexists.
Qed.

(** After line 177 no tag is left, whatever the text was. *)
Lemma sub_tag_tagless (s : str) : tagged (sub re_tag [] s) = false.
Proof.
  enough (tagged (sub re_tag [] s) = false /\
          (has_gt (sub re_tag [] s) = true -> has_gt s = true)) by tauto.
  unfold sub.
  apply (scan_rel (match_len re_tag) []
           (fun out s => tagged out = false /\
                         (has_gt out = true -> has_gt s = true))); [done|..].
  - intros c a b Hno [Ht Hg]. split.
    + cbn [tagged]. rewrite Ht, orb_false_r.
      destruct (c =? chr "<") eqn:E; [|done]. apply N.eqb_eq in E as ->.
      destruct (has_gt a) eqn:Ea; [|done].
      destruct (tag_found b (Hg eq_refl)) as [n Hn]. by apply Hno in Hn.
    + unfold has_gt in *. cbn [existsb].
      destruct (c =? chr ">"); [done|]. apply Hg.
  - intros c a b n _ [Ht Hg]. cbn [app]. split; [done|].
    intros H%Hg%has_gt_drop. unfold has_gt in *. cbn [existsb].
    rewrite H. apply orb_true_r.
Qed.

Lemma angle_cases (c : char) :
  angle c = true -> c = chr "<" \/ c = chr ">".
Proof.
  unfold angle. intros [H|H]%orb_prop; apply N.eqb_eq in H; auto.
Qed.

Lemma angles_none (l : str) :
  Forall (fun c => angle c = false) l -> angles l = [].
Proof.
  induction 1 as [|c l Hc _ IH]; [done|]. by rewrite angles_cons, Hc.
Qed.

Lemma has_gt_angles (s : str) : has_gt (angles s) = has_gt s.
Proof.
  induction s as [|c s IH]; [done|]. rewrite angles_cons.
  unfold has_gt in *. cbn [existsb]. unfold angle.
  destruct (c =? chr ">") eqn:E.
  - rewrite orb_true_r. cbn [existsb]. by rewrite E.
  - rewrite orb_false_r. destruct (c =? chr "<"); cbn [existsb orb];
      by rewrite ?E.
Qed.

(** Whether a text holds a tag is a matter of its angle brackets only. *)
Lemma tagged_angles (s : str) : tagged (angles s) = tagged s.
Proof.
  induction s as [|c s IH]; [done|]. rewrite angles_cons.
  cbn [tagged]. unfold angle. destruct (c =? chr "<") eqn:E.
  - cbn [orb tagged]. by rewrite E, has_gt_angles, IH.
  - cbn [orb andb]. destruct (c =? chr ">"); [|done].
    cbn [tagged]. by rewrite E, IH.
Qed.

Lemma sub_angles (r : regex) (repl s : str) :
  (forall c, angle c = true -> in_classes r c = false) ->
  angles repl = [] ->
  angles (sub r repl s) = angles s.
Proof.
  intros Hr Hrepl. apply scan_angles; [done|]. intros t n E.
  apply match_len_sound in E as [_ E]. apply angles_none.
  eapply Forall_impl; [exact E|]. intros c Hc. simpl in Hc.
  destruct (angle c) eqn:Ea; [|done]. apply Hr in Ea. congruence.
Qed.

Lemma replace_angles (old new s : str) :
  angles old = [] -> angles new = [] ->
  angles (replace old new s) = angles s.
Proof.
  intros Ho Hn. apply scan_angles; [done|]. intros t n E.
  by apply occurs_sound in E as (_ & -> & _).
Qed.

Lemma isspace_angle (c : char) : isspace c = true -> angle c = false.
Proof.
  intros H. destruct (angle c) eqn:E; [|done].
  apply angle_cases in E as [-> | ->]; discriminate.
Qed.

Lemma lstrip_angles (s : str) : angles (lstrip s) = angles s.
Proof.
  induction s as [|c s IH]; [done|]. cbn [lstrip].
  destruct (isspace c) eqn:E; [|done].
  by rewrite IH, angles_cons, (isspace_angle c E).
Qed.

Lemma rstrip_angles (s : str) : angles (rstrip s) = angles s.
Proof.
  induction s as [|c s IH]; [done|]. cbn [rstrip].
  rewrite (angles_cons c s), <- IH.
  destruct (rstrip s) as [|d r]; [|by rewrite angles_cons].
  destruct (isspace c) eqn:E.
  - by rewrite (isspace_angle c E).
  - by rewrite angles_cons.
Qed.

Lemma collapse_angles (b : bool) (s : str) :
  angles (collapse b s) = angles s.
Proof.
  revert b. induction s as [|c s IH]; intros b; [done|].
  cbn [collapse]. destruct (isspace c) eqn:E.
  - rewrite (angles_cons c s), (isspace_angle c E).
    destruct b; [apply IH|]. rewrite angles_cons. apply IH.
  - rewrite !angles_cons. by rewrite IH.
Qed.

Lemma clean_tagless (content : option str) :
  tagged (get_clean_content content) = false.
Proof.
  unfold get_clean_content. destruct content as [c|]; [|done].
  destruct (negb (truthy c)); [done|].
  rewrite normalize_space_eq. unfold strip.
  rewrite <- tagged_angles, rstrip_angles, lstrip_angles, collapse_angles.
  unfold strip_markup.
  rewrite !replace_angles by done.
  rewrite !sub_angles;
    [ | intros c' [-> | ->]%angle_cases; reflexivity | done
      | intros c' [-> | ->]%angle_cases; reflexivity | done ].
  rewrite replace_angles by done.
  rewrite tagged_angles. apply sub_tag_tagless.
Qed.

Lemma tagged_app (l1 l2 l3 : str) :
  tagged (l1 ++ chr "<" :: l2 ++ chr ">" :: l3) = true.
Proof.
  induction l1 as [|c l1 IH]; cbn [app tagged].
  - unfold has_gt. rewrite existsb_app. cbn [existsb].
    rewrite N.eqb_refl. cbn. by rewrite orb_true_r.
  - rewrite IH. apply orb_true_r.
Qed.

(** X19.  No tag is left in a cleaned text: it nowhere holds an opening
    angle bracket that a closing one follows, at any distance. *)
Theorem clean_leaves_no_tag (content : option str) (l1 l2 l3 : str) :
  get_clean_content content <> l1 ++ chr "<" :: l2 ++ chr ">" :: l3.
Proof.
  intros H. pose proof (clean_tagless content) as Ht.
  rewrite H, tagged_app in Ht. done.
Qed.

(** ** The texts that cleaning leaves as they are *)

(** X20.  Among the texts without an opening angle bracket, an ampersand
    or a backslash, cleaning returns unchanged exactly those whose only
    whitespace is single spaces between other characters. *)
Theorem clean_fixed_points (s : str) :
  chr "<" ∉ s -> chr "&" ∉ s -> BACKSLASH ∉ s ->
  get_clean_content (Some s) = s <-> tidy false s /\ trimmed s.
Proof.
  intros Hlt Hamp Hbs. split.
  - intros H. rewrite <- H. apply clean_tidy_trimmed.
  - intros [Ht Htr]. unfold get_clean_content.
    destruct s as [|c s]; [done|]. cbn [truthy negb].
    rewrite strip_markup_id by done. rewrite normalize_space_eq.
    rewrite tidy_collapse by done. by apply trimmed_strip.
Qed.

Lemma clean_fixed_points_witness :
  get_clean_content (Some (py "Sec. 25-2: Zoning (SF-3)"))
  = py "Sec. 25-2: Zoning (SF-3)".
Proof.
  apply (clean_fixed_points (py "Sec. 25-2: Zoning (SF-3)")).
  - apply (bool_decide_unpack _). vm_compute. exact I.
  - apply (bool_decide_unpack _). vm_compute. exact I.
  - apply (bool_decide_unpack _). vm_compute. exact I.
  - split; [vm_compute; tauto|]. split; intros c [= <-]; reflexivity.
Defined.

(** ** Cleaning a cleaned text *)

Lemma startswith_app (u p post : str) :
  startswith u p = true -> startswith u (p ++ post) = true.
Proof.
  revert p. induction u as [|a u IH]; intros [|b p]; cbn; try done.
  intros [-> H]%andb_prop. by rewrite IH.
Qed.

Lemma contains_cons (u : str) (c : char) (s : str) :
  contains u s = true -> contains u (c :: s) = true.
Proof. intros H. cbn [contains]. rewrite H. apply orb_true_r. Qed.

Lemma contains_starts (u s : str) :
  startswith u s = true -> contains u s = true.
Proof. intros H. destruct s; cbn [contains]; by rewrite H. Qed.

Lemma contains_app_r (u pre t : str) :
  contains u t = true -> contains u (pre ++ t) = true.
Proof.
  intros H. induction pre as [|c pre IH]; [done|]. by apply contains_cons.
Qed.

Lemma contains_app_l (u p post : str) :
  contains u p = true -> contains u (p ++ post) = true.
Proof.
  induction p as [|c p IH]; intros H; cbn [contains] in H.
  - rewrite orb_false_r in H. apply contains_starts.
    by apply (startswith_app u []).
  - apply orb_prop in H as [H|H].
    + apply contains_starts. by apply (startswith_app u (c :: p)).
    + rewrite <- app_comm_cons. apply contains_cons. by apply IH.
Qed.

Lemma contains_drop (u : str) (n : nat) (s : str) :
  contains u (drop n s) = true -> contains u s = true.
Proof.
  intros H. rewrite <- (take_drop n s). by apply contains_app_r.
Qed.

Lemma tagged_app_r (pre t : str) :
  tagged t = true -> tagged (pre ++ t) = true.
Proof.
  intros H. induction pre as [|c pre IH]; [done|].
  cbn [app tagged]. rewrite IH. apply orb_true_r.
Qed.

Lemma has_gt_elem (s : str) (c : char) :
  c ∈ s -> only ">" c = true -> has_gt s = true.
Proof.
  unfold has_gt, only. intros Hin Hc. apply existsb_exists.
  exists c. by rewrite <- list_elem_of_In.
Qed.

Section ScanMore.
Variables (m : str -> option nat) (repl : str).

(** Where no occurrence starts, at any place of the text, the text is
    left as it is. *)
Lemma scan_id (s : str) :
  (forall pre t n, s = pre ++ t -> m t <> Some (S n)) ->
  scan m repl 0 s = s.
Proof.
  induction s as [|c s IH]; intros H; [done|]. cbn [scan].
  assert (scan m repl 0 s = s) as ->.
  { apply IH. intros pre t n ->. by apply (H (c :: pre)). }
  destruct (m (c :: s)) as [[|n]|] eqn:E; [done| |done].
  by destruct (H [] (c :: s) n).
Qed.

(** The text is left as it is or gets shorter, when every occurrence is
    longer than the replacement. *)
Lemma scan_same_or_shorter (s : str) :
  (forall t n, m t = Some n -> (length repl < n <= length t)%nat) ->
  scan m repl 0 s = s \/ (length (scan m repl 0 s) < length s)%nat.
Proof.
  intros Hm.
  apply (scan_rel m repl
           (fun out s => out = s \/ (length out < length s)%nat));
    [by left|..].
  - intros c a b _ [->|H]; [by left|]. right. cbn [length]. lia.
  - intros c a b n E H. apply Hm in E. cbn [length] in E. right.
    rewrite length_app. cbn [length].
    assert (length a <= length (drop n b))%nat as Ha.
    { destruct H as [->|H]; lia. }
    rewrite length_drop in Ha. lia.
Qed.

Section Needle.
Variable needle : str.
Hypothesis repl_foreign : Forall (fun c => c ∉ needle) repl.
Hypothesis repl_some : repl <> [].

(** The words made of characters of the needle. *)
Local Abbreviation word u := (forall c, c ∈ u -> c ∈ needle).

Lemma starts_keep (c : char) (a b : str) :
  (forall u, word u -> startswith u a = true -> startswith u b = true) ->
  forall u, word u ->
    startswith u (c :: a) = true -> startswith u (c :: b) = true.
Proof.
  intros H [|x u] Hu; [done|]. cbn [startswith].
  intros [-> Ha]%andb_prop. apply H; [|done].
  intros d Hd. apply Hu. by right.
Qed.

Lemma starts_repl (a t : str) :
  forall u, word u ->
    startswith u (repl ++ a) = true -> startswith u t = true.
Proof.
  intros [|x u] Hu; [by destruct t|].
  destruct repl as [|r0 r] eqn:Er; [done|]. cbn [app startswith].
  intros [Hx _]%andb_prop. apply N.eqb_eq in Hx as ->.
  apply Forall_cons in repl_foreign as [Hr _].
  destruct Hr. apply Hu. left.
Qed.

Lemma contains_repl (a : str) :
  needle <> [] ->
  contains needle (repl ++ a) = true -> contains needle a = true.
Proof.
  intros Hne. clear repl_some.
  induction repl as [|r0 r IH]; [done|]. cbn [app contains].
  apply Forall_cons in repl_foreign as [Hr Hrest].
  intros [H|H]%orb_prop; [|by apply IH].
  destruct needle as [|x u]; [done|]. cbn [startswith] in H.
  apply andb_prop in H as [Hx _]. apply N.eqb_eq in Hx as ->.
  destruct Hr. left.
Qed.

(** An occurrence of the needle in the result was in the text: the
    replacement holds no character of the needle, so it makes none. *)
Lemma scan_foreign (s : str) :
  needle <> [] ->
  contains needle (scan m repl 0 s) = true -> contains needle s = true.
Proof.
  intros Hne.
  enough ((forall u, word u -> startswith u (scan m repl 0 s) = true ->
                     startswith u s = true) /\
          (contains needle (scan m repl 0 s) = true ->
           contains needle s = true)) by tauto.
  apply (scan_rel m repl
           (fun out s =>
              (forall u, word u -> startswith u out = true ->
                         startswith u s = true) /\
              (contains needle out = true -> contains needle s = true)));
    [done|..].
  - intros c a b _ [Hs Hc]. split; [by apply starts_keep|].
    cbn [contains]. intros [H|H]%orb_prop.
    + rewrite (starts_keep c a b Hs needle); done.
    + rewrite (Hc H). apply orb_true_r.
  - intros c a b n _ [Hs Hc]. split; [apply starts_repl|].
    intros H%contains_repl; [|done].
    apply contains_cons. by eapply contains_drop, Hc.
Qed.

(** Once the occurrences of the needle are replaced, none is left. *)
Lemma scan_removes (s : str) :
  needle <> [] ->
  (forall t, startswith needle t = true -> exists n, m t = Some (S n)) ->
  contains needle (scan m repl 0 s) = false.
Proof.
  intros Hne Hm.
  enough ((forall u, word u -> startswith u (scan m repl 0 s) = true ->
                     startswith u s = true) /\
          contains needle (scan m repl 0 s) = false) by tauto.
  apply (scan_rel m repl
           (fun out s =>
              (forall u, word u -> startswith u out = true ->
                         startswith u s = true) /\
              contains needle out = false)); [|..].
  - split; [done|]. cbn [contains]. rewrite orb_false_r.
    by destruct needle.
  - intros c a b Hno [Hs Hc]. split; [by apply starts_keep|].
    cbn [contains]. rewrite Hc, orb_false_r.
    destruct (startswith needle (c :: a)) eqn:E; [|done].
    apply (starts_keep c a b Hs needle) in E; [|done].
    destruct (Hm _ E) as [n Hn]. by destruct (Hno n).
  - intros c a b n _ [Hs Hc]. split; [apply starts_repl|].
    destruct (contains needle (repl ++ a)) eqn:E; [|done].
    apply contains_repl in E; [congruence|done].
Qed.

End Needle.
End ScanMore.

Lemma replace_absent (old new s : str) :
  contains old s = false -> replace old new s = s.
Proof.
  intros H. apply scan_id. intros pre t n -> E.
  unfold occurs in E. destruct (startswith old t) eqn:Es; [|done].
  by rewrite (contains_app_r old pre t (contains_starts _ _ Es)) in H.
Qed.

(** Where the text holds [old], replacing it by something shorter makes
    the text shorter. *)
Lemma replace_present (old new s : str) :
  (length new < length old)%nat ->
  contains old s = true ->
  (length (replace old new s) < length s)%nat.
Proof.
  intros Hlen.
  enough ((length (replace old new s) <= length s)%nat /\
          (contains old s = true ->
           (length (replace old new s) < length s)%nat)) by tauto.
  apply (scan_rel (occurs old) new
           (fun out s =>
              (length out <= length s)%nat /\
              (contains old s = true -> (length out < length s)%nat))).
  - split; [done|]. cbn [contains]. rewrite orb_false_r.
    destruct old; [cbn in Hlen; lia | done].
  - intros c a b Hno [Hle Hlt]. cbn [length]. split; [lia|].
    cbn [contains]. intros [H|H]%orb_prop; [|apply Hlt in H; lia].
    exfalso. destruct old as [|x old']; [cbn in Hlen; lia|].
    apply (Hno (length old')). unfold occurs. by rewrite H.
  - intros c a b n E [Hle _].
    apply occurs_sound in E as (E & _ & Hn). cbn [length] in Hn.
    rewrite length_drop in Hle. rewrite length_app. cbn [length].
    split; [lia|]. intros _. lia.
Qed.

(** A pattern that asks for a closing angle bracket at its end has one
    in every match. *)
Lemma match_len_last (r : regex) (p : char -> bool) (s : str) (n : nat) :
  match_len (r ++ [One p]) s = Some n ->
  exists c, c ∈ take n s /\ p c = true.
Proof.
  revert s n. induction r as [|i r IH]; intros s n.
  { cbn [app match_len]. destruct s as [|c s]; [done|].
    destruct (p c) eqn:E; [|done]. intros [= <-]. exists c.
    split; [left|done]. }
  assert (forall s n, star_len (class_of i) (match_len (r ++ [One p])) s
                      = Some n ->
                      exists c, c ∈ take n s /\ p c = true) as Hstar.
  { intros t k H.
    apply star_len_sound in H as (j & m' & -> & _ & _ & Hk).
    apply IH in Hk as (c & Hc & Hp). exists c. split; [|done].
    rewrite <- take_take_drop, elem_of_app. by right. }
  assert (forall (c : char) s n,
            (exists d, d ∈ take n s /\ p d = true) ->
            exists d, d ∈ take (S n) (c :: s) /\ p d = true) as Hone.
  { intros c t k (d & Hd & Hp). exists d. split; [by right|done]. }
  rewrite <- app_comm_cons.
  destruct i as [q|q|q|q]; cbn [match_len class_of] in *.
  - destruct s as [|c s]; [done|]. destruct (q c); [|done].
    destruct (match_len (r ++ [One p]) s) as [k|] eqn:Ek; [|done].
    intros [= <-]. apply Hone. by apply IH.
  - apply Hstar.
  - destruct s as [|c s]; [done|]. destruct (q c); [|done].
    destruct (star_len q (match_len (r ++ [One p])) s) as [k|] eqn:Ek;
      [|done].
    intros [= <-]. apply Hone. by apply Hstar.
  - destruct s as [|c s]; [apply IH|].
    destruct (q c); [|apply IH].
    destruct (match_len (r ++ [One p]) s) as [k|] eqn:Ek; [|apply IH].
    intros [= <-]. apply Hone. by apply IH.
Qed.

(** A pattern that runs from an opening angle bracket to a closing one
    finds nothing in a text without tag. *)
Lemma sub_tagless (r : regex) (repl s : str) :
  tagged s = false ->
  sub (One (only "<") :: r ++ [One (only ">")]) repl s = s.
Proof.
  intros Ht. apply scan_id. intros pre t n -> E.
  destruct t as [|c t]; [done|]. cbn [match_len] in E.
  destruct (only "<" c) eqn:Ec; [|done].
  destruct (match_len (r ++ [One (only ">")]) t) as [k|] eqn:Ek; [|done].
  apply match_len_last in Ek as (d & Hd & Hgt).
  assert (has_gt t = true) as Hg.
  { eapply has_gt_elem; [|exact Hgt].
    rewrite <- (take_drop k t), elem_of_app. by left. }
  rewrite tagged_app_r in Ht; [done|].
  cbn [tagged]. unfold only in Ec. by rewrite Ec, Hg.
Qed.

(** A cleaned text holds no [&nbsp;]. *)
Lemma clean_no_nbsp (content : option str) :
  contains (py "&nbsp;") (get_clean_content content) = false.
Proof.
  unfold get_clean_content. destruct content as [c|]; [|done].
  destruct (negb (truthy c)); [done|].
  rewrite normalize_space_eq.
  destruct (contains _ (strip _)) eqn:E; [|done]. exfalso.
  unfold strip in E.
  assert (forall s, exists post, s = rstrip s ++ post) as Hr.
  { induction s as [|d s [post IH]]; [by exists []|]. cbn [rstrip].
    destruct (rstrip s) as [|e r].
    - destruct (isspace d); [by exists (d :: s) | by exists s].
    - exists post. by rewrite IH at 1. }
  assert (forall s, exists pre, s = pre ++ lstrip s) as Hl.
  { induction s as [|d s [pre IH]]; [by exists []|]. cbn [lstrip].
    destruct (isspace d); [|by exists []].
    exists (d :: pre). cbn [app]. by rewrite <- IH. }
  match type of E with
  | contains _ (rstrip (lstrip ?w)) = _ =>
      destruct (Hr (lstrip w)) as [post Hp]; destruct (Hl w) as [pre Hq];
      apply (contains_app_l _ _ post) in E; rewrite <- Hp in E;
      apply (contains_app_r _ pre) in E; rewrite <- Hq in E
  end.
  destruct (sub_spaces_collapse (strip_markup c)) as [Hc _].
  rewrite <- Hc in E. unfold sub, strip_markup, sub, replace in E.
  do 5 (apply scan_foreign in E;
        [ | apply (bool_decide_unpack _); vm_compute; exact I
          | vm_compute; discriminate | vm_compute; discriminate ]).
  rewrite scan_removes in E;
    [done | | vm_compute; discriminate | vm_compute; discriminate |].
  - apply (bool_decide_unpack _). vm_compute. exact I.
  - intros t Ht. unfold occurs. rewrite Ht. by eexists.
Qed.

(** Lines 174-180 leave a cleaned text as it is. *)
Lemma strip_tags_cleaned (y : str) :
  tagged y = false -> contains (py "&nbsp;") y = false ->
  replace (py "&nbsp;") [SP]
    (sub re_tag []
       (sub re_br [LF]
          (replace (py "</div>") [] (sub re_div_open [LF] y)))) = y.
Proof.
  intros Ht Hn.
  change re_div_open
    with (One (only "<")
            :: (lit "div" ++ [Star (except ">")]) ++ [One (only ">")]).
  rewrite sub_tagless by done.
  rewrite (replace_absent (py "</div>")).
  2:{ destruct (contains (py "</div>") y) eqn:E; [|done]. exfalso.
      clear Hn. induction y as [|c y IH]; [done|].
      cbn [contains] in E. apply orb_prop in E as [E|E].
      - apply startswith_take in E as [E _].
        rewrite <- (take_drop (length (py "</div>")) (c :: y)), E in Ht.
        set (rest := drop _ _) in Ht.
        change (tagged ([] ++ chr "<" :: py "/div" ++ chr ">" :: rest) = false)
          in Ht.
        by rewrite tagged_app in Ht.
      - cbn [tagged] in Ht. apply orb_false_elim in Ht as [_ Ht]. by apply IH. }
  change re_br
    with (One (only "<")
            :: (lit "br" ++ [Star isspace; Opt (only "/")])
            ++ [One (only ">")]).
  rewrite sub_tagless by done.
  change re_tag
    with (One (only "<") :: [Star (except ">")] ++ [One (only ">")]).
  rewrite sub_tagless by done.
  by apply replace_absent.
Qed.

(** Lines 184-185 need a backslash and a quote. *)
Lemma sub_quoted_letter_absent (y : str) :
  contains [BACKSLASH; DQUOTE] y = false ->
  sub re_quoted_letter repl_quoted_letter y = y.
Proof.
  intros H. apply scan_id. intros pre t n -> E.
  assert (startswith [BACKSLASH; DQUOTE] t = true) as Hs.
  { unfold re_quoted_letter in E.
    destruct t as [|c1 [|c2 t]]; cbn [match_len] in E; [done| |].
    - by destruct (onlyc BACKSLASH c1).
    - destruct (onlyc BACKSLASH c1) eqn:E1; [|done].
      destruct (onlyc DQUOTE c2) eqn:E2; [|done].
      unfold onlyc in *. apply N.eqb_eq in E1 as ->, E2 as ->.
      reflexivity. }
  by rewrite (contains_app_r _ pre t (contains_starts _ _ Hs)) in H.
Qed.

Lemma strip_markup_cleaned (y : str) :
  tagged y = false -> contains (py "&nbsp;") y = false ->
  (contains [BACKSLASH; chr "n"] y = false /\
   contains [BACKSLASH; DQUOTE] y = false /\ strip_markup y = y) \/
  ((contains [BACKSLASH; chr "n"] y = true \/
    contains [BACKSLASH; DQUOTE] y = true) /\
   (length (strip_markup y) < length y)%nat).
Proof.
  intros Ht Hn. unfold strip_markup. rewrite strip_tags_cleaned by done.
  assert (forall s,
            (length (replace [BACKSLASH; DQUOTE] [DQUOTE]
                       (replace [BACKSLASH; chr "n"] [LF] s))
             <= length s)%nat) as Hrest.
  { intros s. etransitivity; [apply replace_length; cbn; lia|].
    apply replace_length. cbn. lia. }
  destruct (contains [BACKSLASH; DQUOTE] y) eqn:Eq.
  - right. split; [by right|].
    destruct (scan_same_or_shorter (match_len re_quoted_letter)
                repl_quoted_letter y) as [Hsame|Hlt].
    { intros t n E. apply match_len_sound in E as [E _].
      unfold repl_quoted_letter, re_quoted_letter in *.
      cbn [length min_len] in *. lia. }
    + fold (sub re_quoted_letter repl_quoted_letter y) in Hsame.
      rewrite !Hsame.
      destruct (contains [BACKSLASH; chr "n"] y) eqn:En.
      * eapply Nat.le_lt_trans; [apply replace_length; cbn; lia|].
        apply replace_present; [cbn; lia | done].
      * rewrite (replace_absent [BACKSLASH; chr "n"]) by done.
        apply replace_present; [cbn; lia | done].
    + fold (sub re_quoted_letter repl_quoted_letter y) in Hlt.
      eapply Nat.le_lt_trans; [apply Hrest|].
      eapply Nat.le_lt_trans; [|exact Hlt].
      apply sub_length. unfold repl_quoted_letter, re_quoted_letter.
      cbn [length min_len]. lia.
  - rewrite !(sub_quoted_letter_absent y) by done.
    rewrite (replace_absent [BACKSLASH; DQUOTE]).
    2:{ destruct (contains _ (replace _ _ y)) eqn:E; [|done].
        unfold replace in E.
        apply scan_foreign in E;
          [congruence | | vm_compute; discriminate..].
        apply (bool_decide_unpack _). vm_compute. exact I. }
    destruct (contains [BACKSLASH; chr "n"] y) eqn:En.
    + right. split; [by left|]. apply replace_present; [cbn; lia | done].
    + left. rewrite replace_absent by done. done.
Qed.

Lemma contains_head_absent (c : char) (u s : str) :
  c ∉ s -> contains (c :: u) s = false.
Proof.
  induction s as [|d s IH]; [done|].
  intros [Hd Hs]%not_elem_of_cons. cbn [contains startswith].
  rewrite (IH Hs), orb_false_r.
  destruct (c =? d) eqn:E; [|done]. by apply N.eqb_eq in E.
Qed.

(** C4, amended.  Cleaning a cleaned text again changes nothing exactly
    when the cleaned text holds neither a backslash followed by the
    letter n nor a backslash followed by a quote, the two escapes that
    each call undoes once; so it changes nothing when the cleaned text
    holds no backslash, whatever else it holds. *)
Theorem clean_idempotent_unescaped (content : option str) :
  (get_clean_content (Some (get_clean_content content))
     = get_clean_content content
   <-> contains [BACKSLASH; chr "n"] (get_clean_content content) = false /\
       contains [BACKSLASH; DQUOTE] (get_clean_content content) = false) /\
  (BACKSLASH ∉ get_clean_content content ->
   get_clean_content (Some (get_clean_content content))
     = get_clean_content content).
Proof.
  pose proof (clean_tagless content) as Htag.
  pose proof (clean_no_nbsp content) as Hnb.
  destruct (clean_tidy_trimmed content) as [Ht Htr].
  revert Htag Hnb Ht Htr. generalize (get_clean_content content) as y.
  intros y Htag Hnb Ht Htr.
  assert (strip_markup y = y -> get_clean_content (Some y) = y) as Hfix.
  { intros Hs. unfold get_clean_content.
    destruct y as [|c y]; [done|]. cbn [truthy negb].
    rewrite Hs, normalize_space_eq, tidy_collapse by done.
    by apply trimmed_strip. }
  assert (length (get_clean_content (Some y)) <= length (strip_markup y))%nat
    as Hlen.
  { unfold get_clean_content. destruct (negb (truthy y)); [cbn; lia|].
    rewrite normalize_space_eq. unfold strip.
    etransitivity; [apply rstrip_length|].
    etransitivity; [apply lstrip_length|]. apply collapse_length. }
  assert (contains [BACKSLASH; chr "n"] y = false /\
          contains [BACKSLASH; DQUOTE] y = false ->
          get_clean_content (Some y) = y) as Hif.
  { intros [Hn Hq]. apply Hfix.
    destruct (strip_markup_cleaned y Htag Hnb) as [(_ & _ & Hs)|[[H|H] _]];
      congruence. }
  split; [split; [|exact Hif]|].
  - intros Hid.
    destruct (strip_markup_cleaned y Htag Hnb) as [(Hn & Hq & _)|[_ Hlt]];
      [done|]. rewrite Hid in Hlen. lia.
  - intros Hbs. apply Hif. split; by apply contains_head_absent.
Qed.

Lemma clean_idempotent_unescaped_witness :
  get_clean_content (Some (py "<b>1 > 0</b>  and 0 < 1 &amp; so on"))
    = py "1 > 0 and 0 < 1 &amp; so on" /\
  get_clean_content
    (Some (get_clean_content (Some (py "<b>1 > 0</b>  and 0 < 1 &amp; so on"))))
    = get_clean_content (Some (py "<b>1 > 0</b>  and 0 < 1 &amp; so on")).
Proof.
  split; [reflexivity|].
  apply (proj2 (clean_idempotent_unescaped
                  (Some (py "<b>1 > 0</b>  and 0 < 1 &amp; so on")))).
  apply (bool_decide_unpack _). vm_compute. exact I.
Defined.

(** * Further properties of [fetch_chapters.py] *)

(** ** The file name of a chapter *)

Section FileName.
Variable isalnum : char -> bool.

Lemma match_one (p : char -> bool) (c : char) (s : str) :
  match_len [One p] (c :: s) = if p c then Some 1%nat else None.
Proof. cbn. by destruct (p c). Qed.

(** A one-class pattern with a one-character replacement works
    character by character. *)
Lemma sub_one (p : char -> bool) (x : char) (s : str) :
  sub [One p] [x] s = (fun c => if p c then x else c) <$> s.
Proof.
  unfold sub. induction s as [|c cs IH]; [done|].
  cbn [scan]. rewrite match_one, fmap_cons.
  destruct (p c); cbn [app]; by rewrite IH.
Qed.

Lemma safe_stem_map (chapter : str) :
  safe_stem isalnum chapter
  = (fun c => if kept isalnum c then c else chr "_") <$> chapter.
Proof.
  unfold safe_stem, re_unsafe. change (py "_") with [chr "_"].
  rewrite sub_one. apply list_fmap_ext. intros i c _. unfold kept.
  by destruct (isword isalnum c || (c =? chr "-")).
Qed.

Lemma kept_underscore : kept isalnum (chr "_") = true.
Proof. unfold kept, isword. by rewrite orb_true_r. Qed.

Lemma safe_stem_id (s : str) :
  forallb (kept isalnum) s = true -> safe_stem isalnum s = s.
Proof.
  rewrite safe_stem_map.
  induction s as [|c cs IH]; [done|]. cbn [forallb fmap list_fmap].
  intros [-> Hcs]%andb_prop. f_equal. by apply IH.
Qed.

Lemma safe_stem_kept (chapter : str) :
  forallb (kept isalnum) (safe_stem isalnum chapter) = true.
Proof.
  rewrite safe_stem_map.
  induction chapter as [|c cs IH]; [done|]. cbn [forallb fmap list_fmap].
  rewrite IH, andb_true_r.
  destruct (kept isalnum c) eqn:E; [done | apply kept_underscore].
Qed.

(** X7.  The file name has the length of the chapter key and holds only
    characters of [\w] and hyphens; a key made of such characters is its
    own file name, so making a file name of a file name changes
    nothing. *)
Theorem safe_stem_shape (chapter : str) :
  length (safe_stem isalnum chapter) = length chapter /\
  forallb (kept isalnum) (safe_stem isalnum chapter) = true /\
  (forallb (kept isalnum) chapter = true -> safe_stem isalnum chapter = chapter) /\
  safe_stem isalnum (safe_stem isalnum chapter) = safe_stem isalnum chapter.
Proof.
  split; [by rewrite safe_stem_map, length_fmap|].
  split; [apply safe_stem_kept|].
  split; [apply safe_stem_id | apply safe_stem_id, safe_stem_kept].
Qed.

(** X8.  File names collide: a chapter key with a character outside
    [\w] and the hyphen has the file name of another key, the one with
    underscores in the place of those characters. *)
Theorem safe_stem_collides (chapter : str) :
  forallb (kept isalnum) chapter = false ->
  safe_stem isalnum chapter <> chapter /\
  safe_stem isalnum (safe_stem isalnum chapter) = safe_stem isalnum chapter.
Proof.
  intros H. split; [|apply safe_stem_id, safe_stem_kept].
  intros Heq. pose proof (safe_stem_kept chapter) as Hk.
  rewrite Heq in Hk. congruence.
Qed.

End FileName.

Lemma safe_stem_shape_witness :
  safe_stem Stub.alnum (py "TIT25LADE_CH25-2ZO") = py "TIT25LADE_CH25-2ZO".
Proof.
  exact (proj1 (proj2 (proj2
           (safe_stem_shape Stub.alnum (py "TIT25LADE_CH25-2ZO")))) eq_refl).
Defined.

Lemma safe_stem_collides_witness :
  safe_stem Stub.alnum (py "TIT1/CH 1") <> py "TIT1/CH 1" /\
  safe_stem Stub.alnum (safe_stem Stub.alnum (py "TIT1/CH 1"))
  = safe_stem Stub.alnum (py "TIT1/CH 1").
Proof. exact (safe_stem_collides Stub.alnum (py "TIT1/CH 1") eq_refl). Defined.

(** ** The sections of a chapter *)

Lemma clean_value_text (v : pyval) :
  text_or_falsy v ->
  clean_value v = Return (PStr (get_clean_content (text_of v))).
Proof.
  unfold clean_value. intros [Hf|[s ->]].
  - rewrite Hf. cbn [negb]. destruct v as [| | |s| |]; try done.
    by destruct s.
  - cbn [truth text_of get_clean_content]. by destruct (truthy s).
Qed.

Lemma clean_value_other (v : pyval) :
  ~ text_or_falsy v -> clean_value v = Raise TypeError.
Proof.
  unfold clean_value, text_or_falsy. intros H.
  destruct (truth v) eqn:E; [|by destruct H; left]. cbn [negb].
  destruct v; try done. destruct H. right. by eauto.
Qed.

(** X9.  When the content of every document is a string or a falsy
    value, the sections are built, one for each document and in the same
    order; the section of a document carries its id, title, depth, flags
    and order number under seven keys, and as content the cleaned text of
    the document. *)
Theorem sections_of_documents (docs : list MunicodeDoc) :
  Forall (fun doc => text_or_falsy (Content doc)) docs ->
  exists sections,
    sections_of docs = Return sections /\
    length sections = length docs /\
    forall i doc, docs !! i = Some doc ->
      exists d, sections !! i = Some (PDict d) /\
        size d = 7%nat /\
        d !! py "id" = Some (Id doc) /\
        d !! py "title" = Some (Title doc) /\
        d !! py "depth" = Some (NodeDepth doc) /\
        d !! py "content"
          = Some (PStr (get_clean_content (text_of (Content doc)))) /\
        d !! py "is_amended" = Some (IsAmended doc) /\
        d !! py "is_updated" = Some (IsUpdated doc) /\
        d !! py "doc_order_id" = Some (DocOrderId doc).
Proof.
  induction 1 as [|doc docs Hc _ (sections & Hs & Hlen & Hget)].
  - exists []. repeat split. intros i doc Hi. by rewrite lookup_nil in Hi.
  - cbn [sections_of]. rewrite (clean_value_text _ Hc), Hs.
    eexists. split; [done|]. split; [by cbn; rewrite Hlen|].
    intros [|i] d Hi.
    + injection Hi as <-. eexists. split; [done|].
      split; [vm_compute; reflexivity|]. by repeat split.
    + by apply Hget.
Qed.

Lemma sections_of_documents_witness :
  exists sections,
    sections_of [doc_of_data {[ py "Content" := PStr (py "<p>a  b</p>") ]};
                 doc_of_data {[ py "Content" := PNone ]}]
    = Return sections /\ length sections = 2%nat.
Proof.
  destruct (sections_of_documents
              [doc_of_data {[ py "Content" := PStr (py "<p>a  b</p>") ]};
               doc_of_data {[ py "Content" := PNone ]}])
    as (sections & Hs & Hlen & _).
  - constructor; [right; eexists; reflexivity|].
    constructor; [left; reflexivity|]. constructor.
  - by exists sections.
Defined.

Lemma clean_value_raises (v : pyval) (e : exn) :
  clean_value v = Raise e -> e = TypeError /\ ~ text_or_falsy v.
Proof.
  unfold clean_value, text_or_falsy. destruct (truth v) eqn:E; [|done].
  cbn [negb]. destruct v; try done; intros [= <-];
    (split; [done|]); intros [H|[s H]]; congruence.
Qed.

Lemma sections_of_raises (docs : list MunicodeDoc) :
  Exists (fun doc => ~ text_or_falsy (Content doc)) docs ->
  sections_of docs = Raise TypeError.
Proof.
  induction docs as [|doc docs IH]; [by intros H; inversion H|].
  intros H. cbn [sections_of].
  destruct (clean_value (Content doc)) as [c|e] eqn:Hc.
  - assert (Exists (fun doc => ~ text_or_falsy (Content doc)) docs) as Hrest.
    { inversion H as [? ? Hbad|]; subst; [|done].
      by rewrite (clean_value_other _ Hbad) in Hc. }
    by rewrite (IH Hrest).
  - by apply clean_value_raises in Hc as [-> _].
Qed.

(** X10.  The building of the sections raises nothing but [TypeError],
    and raises it exactly when the content of some document is neither a
    string nor a falsy value. *)
Theorem sections_of_other_content (docs : list MunicodeDoc) (e : exn) :
  sections_of docs = Raise e <->
  e = TypeError /\
  Exists (fun doc => ~ text_or_falsy (Content doc)) docs.
Proof.
  split; [|intros [-> H]; by apply sections_of_raises].
  induction docs as [|doc docs IH]; [done|]. cbn [sections_of].
  destruct (clean_value (Content doc)) as [c|e'] eqn:Hc.
  - destruct (sections_of docs) as [sections|e'']; [done|].
    intros [= <-]. destruct (IH eq_refl) as [-> H].
    split; [done | by right].
  - intros [= <-]. apply clean_value_raises in Hc as [-> H].
    split; [done | by left].
Qed.

Lemma sections_of_other_content_witness :
  sections_of [doc_of_data {[ py "Content" := PInt 7 ]}] = Raise TypeError.
Proof.
  apply (proj2 (sections_of_other_content
                  [doc_of_data {[ py "Content" := PInt 7 ]}] TypeError)).
  split; [reflexivity|]. constructor. intros [H|[s H]]; discriminate.
Defined.

(** ** Fetching one chapter, and the log of a run *)

Lemma pauses_app (t1 t2 : list event) :
  pauses (t1 ++ t2) = pauses t1 ++ pauses t2.
Proof. apply omap_app. Qed.

Section RunFacts.
Context {World : Type}.
Variable get_available_chapters :
  Z -> Z -> str -> World -> outcome (list pydict) * World.
Variable get_chapter_content :
  MunicodeRequestParams -> World -> outcome MunicodeResponse * World.
Variable _save_json : pyval -> str -> World -> outcome unit * World.
Variable isalnum : char -> bool.

Local Abbreviation fetch key :=
  (fetch_and_store_chapter World get_chapter_content _save_json isalnum
     AUSTIN_job_id AUSTIN_title key AUSTIN_product_id).
Local Abbreviation request key :=
  (get_chapter_content
     {| job_id := AUSTIN_job_id; node_id := key;
        product_id := AUSTIN_product_id |}).
Local Abbreviation turn := (iteration World get_chapter_content _save_json isalnum).
Local Abbreviation loop := (fetch_loop World get_chapter_content _save_json isalnum).
Local Abbreviation whole := (fetch_chapters World get_chapter_content _save_json isalnum).
Local Abbreviation bulk :=
  (fetch_all_austin_chapters World get_available_chapters get_chapter_content
     _save_json isalnum).

Lemma fetch_log (key : str) (s : env World) :
  exists o s', fetch key s = (o, s') /\
    trace s' = trace s
      ++ [match o with Return _ => Stored key | Raise e => ErrorFetching key e end].
Proof.
  unfold fetch_and_store_chapter, try_except, bind, perform, lift, emit, raise.
  destruct (get_chapter_content _ (world s)) as [[response|e] w].
  - destruct (sections_of (Docs response)) as [sections|e].
    + cbn [world]. destruct (_save_json _ _ w) as [[[]|e] w']; by eauto.
    + by eauto.
  - by eauto.
Qed.

(** X11.  A fetch leaves exactly one record in the log: that the chapter
    was stored when it returns, and the error when it raises, with the
    exception that it raises. *)
Theorem fetch_logs_outcome (key : str) (s s' : env World) (o : outcome unit) :
  fetch key s = (o, s') ->
  trace s' = trace s
    ++ [match o with Return _ => Stored key | Raise e => ErrorFetching key e end].
Proof.
  intros H. destruct (fetch_log key s) as (o' & s1 & Hf & Ht).
  rewrite H in Hf. by injection Hf as <- <-.
Qed.

(** X12.  When the service answers with a document whose content is
    neither a string nor a falsy value, the fetch raises [TypeError] and
    the world is as the request left it: nothing is written. *)
Theorem fetch_stops_before_write (key : str) (s : env World)
    (response : MunicodeResponse) (w : World) :
  request key (world s) = (Return response, w) ->
  Exists (fun doc => ~ text_or_falsy (Content doc)) (Docs response) ->
  fetch key s
  = (Raise TypeError,
     {| trace := trace s ++ [ErrorFetching key TypeError]; world := w |}).
Proof.
  intros Hr Hbad.
  unfold fetch_and_store_chapter, try_except, bind, perform, lift, emit, raise.
  rewrite Hr. cbn [Docs]. by rewrite (sections_of_raises _ Hbad).
Qed.

(** The log of one turn: nothing, a failure that is not a fetch, or a
    fetch with its record and then the pause or the failure. *)
Lemma turn_log (chapter : pydict) (p : gset str) (s : env World) :
  exists p' s' t,
    turn chapter p s = (Return p', s') /\ trace s' = trace s ++ t /\
    pauses t = replicate (length (stored t)) 1%nat.
Proof.
  destruct (get chapter (py "Id") (PStr [])) as [| | |id| |] eqn:Hv.
  1-3, 5-6:
    unfold iteration, loop_body, try_except; rewrite Hv;
    destruct (negb (truth _));
    [ exists p, s, []; by rewrite app_nil_r
    | cbn; by eexists p, _, [_] ].
  rewrite (turn_str _ _ _ _ id) by done.
  destruct (negb (truthy id)); [exists p, s, []; by rewrite app_nil_r|].
  cbv zeta.
  destruct (bool_decide _); [exists p, s, []; by rewrite app_nil_r|].
  destruct (2 <? _)%nat; [exists p, s, []; by rewrite app_nil_r|].
  set (key := join _ _).
  destruct (fetch_log key (logged s (Fetching key))) as (o & s1 & -> & Ht).
  cbn [logged trace] in Ht.
  destruct o as [[]|e]; eexists _, _, ([Fetching key] ++ [_] ++ [_]);
    (split; [done|]); cbn [logged trace]; rewrite Ht;
    by rewrite <- !app_assoc.
Qed.

(** The log of the loop. *)
Lemma loop_log (chapters : list pydict) (p p' : gset str) (s s' : env World) :
  loop chapters p s = (Return p', s') ->
  exists t, trace s' = trace s ++ t /\
    pauses t = replicate (length (stored t)) 1%nat /\
    size p' = (size p + length (stored t))%nat /\
    NoDup (stored t) /\
    (forall x, x ∈ stored t -> x ∉ p) /\
    (forall k, k ∈ attempts t -> exists n, n ∈ chapters /\ chapter_root n k).
Proof.
  revert p s. induction chapters as [|c cs IH]; intros p s.
  - intros [= <- <-]. exists []. rewrite app_nil_r. cbn.
    repeat split; [lia|constructor|..]; intros x Hx; by apply elem_of_nil in Hx.
  - cbn [fetch_loop]. unfold bind at 1.
    destruct (turn_cases get_chapter_content _save_json isalnum c p s)
      as (p1 & s1 & t1 & Hturn & Ht1 & Hc).
    destruct (turn_log c p s) as (p1' & s1' & t1' & Hturn' & Ht1' & Hp1).
    rewrite Hturn in Hturn'. injection Hturn' as <- <-.
    rewrite Ht1 in Ht1'. apply app_inv_head in Ht1' as <-.
    rewrite Hturn. intros Hl.
    destruct (IH _ _ Hl) as (t2 & Ht2 & Hp2 & Hsize & Hnd & Hnew & Hatt).
    exists (t1 ++ t2). split; [by rewrite Ht2, Ht1, app_assoc|].
    rewrite pauses_app, stored_app, attempts_app, length_app, replicate_add.
    split; [by rewrite Hp1, Hp2|].
    destruct Hc as [(-> & Ha & Hst & _)
                   |(id & Hroot & Hid & Ha & [(-> & Hst)|(-> & Hst & _)])];
      rewrite Hst, Ha in *; cbn [app length].
    + repeat split; [done..| |]; [done|].
      intros k Hk. destruct (Hatt k Hk) as (n & Hn & Hr).
      exists n. split; [by right | done].
    + repeat split; [done..| |]; [done|].
      intros k [->|Hk]%elem_of_cons.
      * exists c. split; [left | done].
      * destruct (Hatt k Hk) as (n & Hn & Hr).
        exists n. split; [by right | done].
    + split.
      { rewrite Hsize, size_union, size_singleton by set_solver. lia. }
      split.
      { apply NoDup_cons. split; [|done].
        intros Hin. apply (Hnew _ Hin). set_solver. }
      split.
      { intros x [->|Hx]%elem_of_cons; [done|].
        intros Hin. apply (Hnew _ Hx). set_solver. }
      intros k [->|Hk]%elem_of_cons.
      * exists c. split; [left | done].
      * destruct (Hatt k Hk) as (n & Hn & Hr).
        exists n. split; [by right | done].
Qed.

Lemma whole_returns (chapters : list pydict) (s : env World) :
  exists p s', whole chapters s = (Return p, s').
Proof.
  destruct (loop_returns get_chapter_content _save_json isalnum chapters ∅ s)
    as (p & s1 & Hl).
  exists p, (logged s1 (Processed (size p))).
  unfold fetch_chapters, bind. by rewrite Hl.
Qed.

(** X13.  Over a listing of JSON objects, whatever their fields hold
    and whatever the service and the file system do, the pass returns,
    and its last record is the count of the set that it returns. *)
Theorem run_returns (chapters : list pydict) (s : env World) :
  exists p s' t,
    whole chapters s = (Return p, s') /\
    trace s' = trace s ++ t ++ [Processed (size p)].
Proof.
  destruct (loop_returns get_chapter_content _save_json isalnum chapters ∅ s)
    as (p & s1 & Hl).
  destruct (loop_log _ _ _ _ _ Hl) as (t & Ht & _).
  exists p, (logged s1 (Processed (size p))), t.
  unfold fetch_chapters, bind. rewrite Hl. split; [done|].
  cbn [logged trace]. by rewrite Ht, app_assoc.
Qed.

(** X14.  The count that a run reports is the number of chapters that it
    reported as stored; no chapter is stored twice, and the set returned
    holds the stored chapters and nothing else. *)
Theorem count_is_stored (chapters : list pydict) (s : env World) :
  exists p s' t,
    whole chapters s = (Return p, s') /\
    trace s' = trace s ++ t ++ [Processed (length (stored t))] /\
    NoDup (stored t) /\
    (forall k, k ∈ p <-> k ∈ stored t).
Proof.
  destruct (loop_returns get_chapter_content _save_json isalnum chapters ∅ s)
    as (p & s1 & Hl).
  destruct (loop_log _ _ _ _ _ Hl) as (t & Ht & _ & Hsize & Hnd & _).
  destruct (loop_trace get_chapter_content _save_json isalnum _ _ _ _ _ Hl)
    as (t' & Ht' & _ & Hset).
  rewrite Ht in Ht'. apply app_inv_head in Ht' as <-.
  exists p, (logged s1 (Processed (size p))), t.
  unfold fetch_chapters, bind. rewrite Hl. split; [done|]. split.
  { cbn [logged trace]. rewrite Ht, Hsize, size_empty. by rewrite app_assoc. }
  split; [done|].
  intros k. rewrite Hset, elem_of_empty. tauto.
Qed.

(** X15.  A run pauses one second once for every chapter that it stored,
    the last one included, and at no other time. *)
Theorem one_pause_per_stored (chapters : list pydict) (s : env World) :
  exists p s' t,
    whole chapters s = (Return p, s') /\
    trace s' = trace s ++ t /\
    pauses t = replicate (length (stored t)) 1%nat.
Proof.
  destruct (loop_returns get_chapter_content _save_json isalnum chapters ∅ s)
    as (p & s1 & Hl).
  destruct (loop_log _ _ _ _ _ Hl) as (t & Ht & Hp & _).
  exists p, (logged s1 (Processed (size p))), (t ++ [Processed (size p)]).
  unfold fetch_chapters, bind. rewrite Hl. split; [done|]. split.
  { cbn [logged trace]. by rewrite Ht, app_assoc. }
  rewrite pauses_app, stored_app. cbn. by rewrite !app_nil_r.
Qed.

(** X16.  A run fetches nothing but ids of the listing: every key that
    it hands to the fetch is the id of a listed node, not empty and of
    at most two segments.  The key of a chapter that is listed only
    through its sub-nodes is never fetched. *)
Theorem only_listed_roots_fetched (chapters : list pydict) (s : env World) :
  exists p s' t,
    whole chapters s = (Return p, s') /\
    trace s' = trace s ++ t /\
    forall k, k ∈ attempts t -> exists n, n ∈ chapters /\ chapter_root n k.
Proof.
  destruct (loop_returns get_chapter_content _save_json isalnum chapters ∅ s)
    as (p & s1 & Hl).
  destruct (loop_log _ _ _ _ _ Hl) as (t & Ht & _ & _ & _ & _ & Ha).
  exists p, (logged s1 (Processed (size p))), (t ++ [Processed (size p)]).
  unfold fetch_chapters, bind. rewrite Hl. split; [done|]. split.
  { cbn [logged trace]. by rewrite Ht, app_assoc. }
  intros k. rewrite attempts_app. cbn. rewrite app_nil_r. apply Ha.
Qed.

(** X17.  When the discovery raises, the bulk fetch logs and raises the
    same exception and requests no chapter.  When the discovery returns
    a listing of JSON objects, the bulk fetch raises what the saving of
    the chapter structure raises, again without requesting a chapter,
    and once the saving has returned it returns, after the pass over
    the listing and with [Completed] as its last record, whatever the
    chapters did. *)
Theorem bulk_fetch_outcome (s : env World) :
  (forall e w,
      get_available_chapters AUSTIN_job_id AUSTIN_product_id
        AUSTIN_root_node_id (world s) = (Raise e, w) ->
      bulk s
      = (Raise e,
         {| trace := trace s
              ++ [Starting; Discovering; ErrorDiscovering e; ErrorBulk e];
            world := w |})) /\
  (forall chapters w e w',
      get_available_chapters AUSTIN_job_id AUSTIN_product_id
        AUSTIN_root_node_id (world s) = (Return chapters, w) ->
      _save_json (PDict {[ py "chapters" := PList (PDict <$> chapters) ]})
        (py "chapter_structure.json") w = (Raise e, w') ->
      bulk s
      = (Raise e,
         {| trace := trace s
              ++ [Starting; Discovering; Found (length chapters); ErrorBulk e];
            world := w' |})) /\
  (forall chapters w w',
      get_available_chapters AUSTIN_job_id AUSTIN_product_id
        AUSTIN_root_node_id (world s) = (Return chapters, w) ->
      _save_json (PDict {[ py "chapters" := PList (PDict <$> chapters) ]})
        (py "chapter_structure.json") w = (Return tt, w') ->
      exists p s1,
        whole chapters
          {| trace := trace s ++ [Starting; Discovering; Found (length chapters)];
             world := w' |} = (Return p, s1) /\
        bulk s = (Return tt, logged s1 Completed)).
Proof.
  split; [|split].
  - intros e w H.
    unfold fetch_all_austin_chapters, discover_chapters, try_except, bind,
      perform, emit, raise.
    cbn [logged world trace]. rewrite H.
    unfold logged. cbn [world trace]. by rewrite <- !app_assoc.
  - intros chapters w e w' H Hw.
    unfold fetch_all_austin_chapters, discover_chapters, try_except, bind,
      perform, emit, raise, ret.
    cbn [logged world trace]. rewrite H. cbn [logged world trace].
    rewrite Hw. unfold logged. cbn [world trace]. by rewrite <- !app_assoc.
  - intros chapters w w' H Hw.
    destruct (whole_returns chapters
                {| trace := trace s
                     ++ [Starting; Discovering; Found (length chapters)];
                   world := w' |}) as (p & s1 & Hrun).
    exists p, s1. split; [done|].
    unfold fetch_all_austin_chapters, discover_chapters, try_except, bind,
      perform, emit, raise, ret.
    cbn [logged world trace]. rewrite H. cbn [logged world trace].
    rewrite Hw. cbn [logged world trace].
    rewrite <- !app_assoc. cbn [app]. by rewrite Hrun.
Qed.

End RunFacts.

Lemma fetch_logs_outcome_witness :
  exists s',
    fetch_and_store_chapter nat Stub.content_first_fails Stub.save_ok
      Stub.alnum AUSTIN_job_id AUSTIN_title (py "TIT1_CH1") AUSTIN_product_id
      Stub.start
    = (Raise (Error (py "Municode API error: 503")), s') /\
    trace s'
    = trace Stub.start
        ++ [ErrorFetching (py "TIT1_CH1") (Error (py "Municode API error: 503"))].
Proof.
  eexists. split; [reflexivity|].
  exact (fetch_logs_outcome Stub.content_first_fails Stub.save_ok Stub.alnum
           (py "TIT1_CH1") Stub.start _ (Raise _) eq_refl).
Defined.

Lemma fetch_stops_before_write_witness :
  fetch_and_store_chapter nat Stub.content_number Stub.save_ok Stub.alnum
    AUSTIN_job_id AUSTIN_title (py "TIT1_CH1") AUSTIN_product_id Stub.start
  = (Raise TypeError,
     {| trace := trace Stub.start ++ [ErrorFetching (py "TIT1_CH1") TypeError];
        world := 1%nat |}).
Proof.
  apply (fetch_stops_before_write Stub.content_number Stub.save_ok Stub.alnum
           (py "TIT1_CH1") Stub.start
           {| Docs := [doc_of_data {[ py "Content" := PInt 7 ]}] |} 1%nat).
  - reflexivity.
  - apply Exists_cons_hd. vm_compute. intros [H|[x H]]; discriminate.
Defined.

Lemma bulk_fetch_outcome_witness :
  exists p s1,
    fetch_chapters nat Stub.content_ok Stub.save_ok Stub.alnum
      (node_of_id <$> example_ids)
      {| trace := trace Stub.start
           ++ [Starting; Discovering;
               Found (length (node_of_id <$> example_ids))];
         world := 1%nat |}
    = (Return p, s1) /\
    fetch_all_austin_chapters nat
      (Stub.listing_ok (node_of_id <$> example_ids))
      Stub.content_ok Stub.save_ok Stub.alnum Stub.start
    = (Return tt, logged s1 Completed).
Proof.
  apply (proj2 (proj2 (bulk_fetch_outcome
           (Stub.listing_ok (node_of_id <$> example_ids))
           Stub.content_ok Stub.save_ok Stub.alnum Stub.start))
           (node_of_id <$> example_ids) 1%nat 1%nat);
    reflexivity.
Defined.

(** * The ids that [build_node_id] makes, as the loop reads them *)

Lemma split_app_sep (sep : char) (a b : str) :
  sep ∉ a -> split sep (a ++ sep :: b) = a :: split sep b.
Proof.
  induction a as [|c a IH]; intros H; cbn [app split].
  - by rewrite N.eqb_refl.
  - apply not_elem_of_cons in H as [Hc Ha].
    destruct (c =? sep) eqn:E; [by apply N.eqb_eq in E|].
    by rewrite IH.
Qed.

(** The id is the chapter id followed by nothing or by an underscore
    and more. *)
Lemma build_node_id_shape (title chapter : str)
    (subchapter article : option str) :
  exists rest,
    build_node_id title chapter subchapter article
    = (py "TIT" ++ title) ++ chr "_" :: (py "CH" ++ chapter) ++ rest /\
    (rest = [] \/ exists r, rest = chr "_" :: r).
Proof.
  unfold build_node_id.
  destruct subchapter as [[|x s]|], article as [[|y a]|]; cbn [truthy].
  1, 3, 7, 9:
    exists []; split; [|by left];
    rewrite app_nil_r, <- ?app_assoc; reflexivity.
  1, 5:
    exists (chr "_" :: y :: a); split; [|by eauto];
    rewrite <- ?app_assoc; reflexivity.
  2: { exists (chr "_" :: (x :: s) ++ chr "_" :: y :: a). split; [|by eauto].
       rewrite <- ?app_assoc. reflexivity. }
  all: exists (chr "_" :: x :: s); (split; [|by eauto]);
    rewrite <- ?app_assoc; reflexivity.
Qed.

(** X21.  For a title and a chapter without underscore, the first two
    segments of every id that [build_node_id] makes are the title part
    and the chapter part, so the chapter key that the loop takes from
    the id is the id of the chapter itself; and the id has at most two
    segments, which is what the loop asks of a node to fetch it, exactly
    when no subchapter and no article went into it. *)
Theorem built_id_key (title chapter : str) (subchapter article : option str) :
  chr "_" ∉ title -> chr "_" ∉ chapter ->
  let id := build_node_id title chapter subchapter article in
  take 2 (split (chr "_") id) = [py "TIT" ++ title; py "CH" ++ chapter] /\
  join (py "_") (take 2 (split (chr "_") id))
    = build_node_id title chapter None None /\
  ((length (split (chr "_") id) <= 2)%nat
   <-> id = build_node_id title chapter None None).
Proof.
  intros Ht Hc id.
  assert (chr "_" ∉ py "TIT" ++ title) as Ha.
  { apply not_elem_of_app. split; [|done].
    apply (bool_decide_unpack _). vm_compute. exact I. }
  assert (chr "_" ∉ py "CH" ++ chapter) as Hb.
  { apply not_elem_of_app. split; [|done].
    apply (bool_decide_unpack _). vm_compute. exact I. }
  assert (build_node_id title chapter None None
          = (py "TIT" ++ title) ++ chr "_" :: (py "CH" ++ chapter) ++ [])
    as Hroot.
  { unfold build_node_id. rewrite app_nil_r, <- !app_assoc. reflexivity. }
  destruct (build_node_id_shape title chapter subchapter article)
    as (rest & Hid & Hrest).
  fold id in Hid. rewrite Hroot, Hid. rewrite split_app_sep by done.
  destruct Hrest as [-> | [r ->]].
  - rewrite app_nil_r, split_no_sep by done. cbn [take join length].
    split; [done|]. split; [done|]. split; [done|lia].
  - rewrite split_app_sep by done.
    pose proof (split_nonempty (chr "_") r) as Hne.
    destruct (split (chr "_") r) as [|x xs] eqn:E; [done|].
    cbn [take join length]. rewrite app_nil_r.
    split; [done|]. split; [done|]. split; [lia|].
    intros H. apply (f_equal length) in H.
    rewrite !length_app in H. cbn [length] in H.
    rewrite !length_app in H. cbn [length] in H. lia.
Qed.

Lemma built_id_key_witness :
  let id := build_node_id (py "25LADE") (py "25-2ZO") (Some (py "SUBCHAPTER")) None in
  take 2 (split (chr "_") id) = [py "TIT" ++ py "25LADE"; py "CH" ++ py "25-2ZO"] /\
  join (py "_") (take 2 (split (chr "_") id))
    = build_node_id (py "25LADE") (py "25-2ZO") None None /\
  ((length (split (chr "_") id) <= 2)%nat
   <-> id = build_node_id (py "25LADE") (py "25-2ZO") None None).
Proof.
  apply (built_id_key (py "25LADE") (py "25-2ZO") (Some (py "SUBCHAPTER")) None);
    apply (bool_decide_unpack _); vm_compute; exact I.
Defined.

(** * Nodes whose id is not a string *)

Section OddIds.
Context {World : Type}.
Variable get_chapter_content :
  MunicodeRequestParams -> World -> outcome MunicodeResponse * World.
Variable _save_json : pyval -> str -> World -> outcome unit * World.
Variable isalnum : char -> bool.

(** X22.  A node whose id is not a string is never fetched and leaves
    the set as it was: a falsy id ([None], 0, an empty list) is passed
    over without a record, and any other one fails with [AttributeError]
    when the loop splits it, which the handler of the loop logs. *)
Theorem non_text_id_not_fetched (chapter : pydict) (v : pyval)
    (p : gset str) (s : env World) :
  get chapter (py "Id") (PStr []) = v ->
  (forall id, v <> PStr id) ->
  iteration World get_chapter_content _save_json isalnum chapter p s
  = (Return p,
     if truth v then logged s (FailedToFetch v AttributeError) else s).
Proof.
  intros Hv Hns. unfold iteration, loop_body, try_except. rewrite Hv.
  destruct (truth v) eqn:E; cbn [negb]; [|done].
  destruct v as [| | |id| |]; try done. by destruct (Hns id).
Qed.

End OddIds.

Lemma non_text_id_not_fetched_witness :
  iteration nat Stub.content_ok Stub.save_ok Stub.alnum
    {[ py "Id" := PInt 7 ]} ∅ Stub.start
  = (Return ∅, logged Stub.start (FailedToFetch (PInt 7) AttributeError)).
Proof.
  apply (non_text_id_not_fetched Stub.content_ok Stub.save_ok Stub.alnum
           {[ py "Id" := PInt 7 ]} (PInt 7) ∅ Stub.start);
    [reflexivity | discriminate].
Defined.

(** * The fetcher with the client of the module *)

Section SyncClient.
Context {World : Type}.
(** The methods of [MunicodeClient], which are ordinary methods. *)
Variable client_get_available_chapters :
  Z -> Z -> str -> World -> outcome (list pydict) * World.
Variable client_get_chapter_content :
  MunicodeRequestParams -> World -> outcome MunicodeResponse * World.
Variable _save_json : pyval -> str -> World -> outcome unit * World.
Variable isalnum : char -> bool.

(** X23.  With the client of the module, whose methods are not
    coroutines, the bulk fetch always raises: the listing is requested,
    and then either the request has failed or the [await] of line 75
    raises [TypeError] on the list.  The error is logged twice, no
    chapter is requested and nothing is written. *)
Theorem sync_client_stops_bulk (s : env World) :
  let r := client_get_available_chapters AUSTIN_job_id AUSTIN_product_id
             AUSTIN_root_node_id (world s) in
  fetch_all_austin_chapters World
    (fun job_id product_id root_node_id =>
       await_result (client_get_available_chapters job_id product_id
                       root_node_id))
    (fun params => await_result (client_get_chapter_content params))
    _save_json isalnum s
  = (Raise (await_error r.1),
     {| trace := trace s
          ++ [Starting; Discovering; ErrorDiscovering (await_error r.1);
              ErrorBulk (await_error r.1)];
        world := r.2 |}).
Proof.
  intros r. subst r.
  unfold fetch_all_austin_chapters, discover_chapters, try_except, bind,
    perform, emit, raise, await_result.
  cbn [logged world trace].
  destruct (client_get_available_chapters _ _ _ (world s)) as [[l|e] w];
    unfold logged; cbn [world trace fst snd await_error];
    by rewrite <- !app_assoc.
Qed.

(** X24.  With the client of the module, a fetch never stores a chapter:
    the content is requested, and then either the request has failed or
    the [await] of line 119 raises [TypeError] on the response.  The
    error is logged and raised, and nothing is written. *)
Theorem sync_client_stores_nothing (job_id : Z) (title chapter : str)
    (product_id : Z) (s : env World) :
  let r := client_get_chapter_content
             {| job_id := job_id; node_id := chapter;
                product_id := product_id |} (world s) in
  fetch_and_store_chapter World
    (fun params => await_result (client_get_chapter_content params))
    _save_json isalnum job_id title chapter product_id s
  = (Raise (await_error r.1),
     {| trace := trace s ++ [ErrorFetching chapter (await_error r.1)];
        world := r.2 |}).
Proof.
  intros r. subst r.
  unfold fetch_and_store_chapter, try_except, bind, perform, emit, raise,
    await_result.
  by destruct (client_get_chapter_content _ (world s)) as [[l|e] w].
Qed.

End SyncClient.
